(** * Rule matching and dispatch of the reaction middleware

    A shallow embedding of [solutions/01-rule/lib/rule.js] and of the
    [Middleware] code given in [_pages/components/middleware.md].

    The program is JavaScript: its messages, configuration objects and rules
    are dynamically typed objects, a property read on [undefined] throws, and
    a method is whatever the receiver holds under the method's name.  The
    embedding keeps this: values are tagged, objects live in a store, and the
    functions of the program are written in a state-and-exception monad whose
    state is the store together with the log of the calls made to the
    external collaborators. *)

From Stdlib Require Import Floats.
From stdpp Require Import base option list gmap strings pretty.

Local Open Scope string_scope.
Local Open Scope Z_scope.

(** ** Values, objects and the store *)

Module JS.

Definition loc := positive.

(** A JavaScript value: a primitive, or a reference to an object of the
    store.  Numbers are IEEE doubles, as in the language. *)
Inductive value : Type :=
  | VUndefined
  | VNull
  | VBool (b : bool)
  | VNum (n : float)
  | VStr (s : string)
  | VRef (l : loc).
Arguments VRef l%_positive.

(** The prototype of an object made by an object literal or by [JSON.parse]
    is [Object.prototype]; the prototype of an object made by [new Rule] is
    [Rule.prototype]. *)
Inductive prototype : Type :=
  | ObjectPrototype
  | RulePrototype.

(** An object is its prototype and its own enumerable data properties; an
    array is its elements.  A property holds a value, and no value of this
    fragment is a function: functions are reached through prototypes only
    (see [get_method]). *)
Inductive object : Type :=
  | Obj (proto : prototype) (props : gmap string value)
  | Arr (elems : list value).

#[export] Instance object_inhabited : Inhabited object :=
  populate (Obj ObjectPrototype ∅).

(** A call to an external collaborator.  [GetChannelByID] is the one call
    that [rule.js] makes; the others are the calls of section 6 of the
    specification, which [execute] makes. *)
Inductive call : Type :=
  | GetChannelByID (id : value)
  | GetReactions (channel ts : value)
  | FileIssue (rule message : value)
  | AddReaction (name channel ts : value)
  | PostMessage (channel text : value).

(** The state threaded through the program: the store of objects and the
    log of collaborator calls, most recent last.  A reference always
    denotes an object: a location outside the finite map reads as the
    empty object ([!!!]). *)
Record state : Type := State {
  heap : gmap loc object;
  trace : list call
}.

(** What a collaborator answers: a value, or a failure it throws. *)
Inductive result (A : Type) : Type :=
  | Returned (a : A)
  | Failed (e : value).
Arguments Returned {A} a.
Arguments Failed {A} e.

(** What is thrown: the [TypeError] the language raises on a property read
    of [undefined] or [null] and on a call of a non-function, or the
    failure of a collaborator, kept as it was thrown. *)
Inductive exn : Type :=
  | TypeError
  | Thrown (e : value).

(** The outcome of a computation: a value, an exception, or [Unmodelled]
    where the program leaves this fragment of the language.  That happens
    in three places, none of which a rule made from a configuration of
    strings and arrays of strings reaches: an assignment under [__proto__]
    that replaces a prototype (see [set_prop]), a call of
    [String.prototype.match] (a string in the place of a rule), and the
    conversion of a number or an object to a string (a string in the place
    of [channelNames], see [string_indexOf]). *)
Inductive outcome (A : Type) : Type :=
  | Normal (a : A)
  | Throw (e : exn)
  | Unmodelled.
Arguments Normal {A} a.
Arguments Throw {A} e.
Arguments Unmodelled {A}.

Definition M (A : Type) : Type := state → outcome A * state.

#[export] Instance M_ret : MRet M := λ A a σ, (Normal a, σ).

#[export] Instance M_bind : MBind M := λ A B f m σ,
  match m σ with
  | (Normal a, σ') => f a σ'
  | (Throw e, σ') => (Throw e, σ')
  | (Unmodelled, σ') => (Unmodelled, σ')
  end.

Definition throw {A} (e : exn) : M A := λ σ, (Throw e, σ).
Definition unmodelled {A} : M A := λ σ, (Unmodelled, σ).

(** Lift an outcome computed from the store alone. *)
Definition reading {A} (f : gmap loc object → outcome A) : M A :=
  λ σ, (f (heap σ), σ).

(** *** Operators *)

(** [a === b].  Numbers compare as doubles ([NaN] differs from itself),
    objects by identity. *)
Definition strict_equals (a b : value) : bool :=
  match a, b with
  | VUndefined, VUndefined => true
  | VNull, VNull => true
  | VBool x, VBool y => Bool.eqb x y
  | VNum x, VNum y => PrimFloat.eqb x y
  | VStr x, VStr y => String.eqb x y
  | VRef x, VRef y => Pos.eqb x y
  | _, _ => false
  end.

(** The truth value of a value in a condition. *)
Definition ToBoolean (v : value) : bool :=
  match v with
  | VUndefined | VNull => false
  | VBool b => b
  | VNum n => negb (is_zero n || is_nan n)
  | VStr s => negb (String.eqb s "")
  | VRef _ => true
  end.

(** *** Own properties *)

(** The elements of an array, or the characters of a string, with their
    property names ["0"], ["1"], ... *)
Definition indexed (elems : list value) : list (string * value) :=
  imap (λ i x, (pretty i, x)) elems.

Definition characters (s : string) : list value :=
  (λ c, VStr (String c "")) <$> String.list_ascii_of_string s.

Definition length_value (n : nat) : value :=
  VNum (PrimFloat.of_uint63 (Uint63.of_Z (Z.of_nat n))).

Definition indexed_own (elems : list value) (k : string) : option value :=
  if decide (k = "length") then Some (length_value (length elems))
  else (snd ∘ snd) <$> list_find (λ p, p.1 = k) (indexed elems).

(** The own property [k] of [v], if it has one. *)
Definition own_property (h : gmap loc object) (v : value) (k : string)
    : option value :=
  match v with
  | VRef l =>
      match h !!! l with
      | Obj _ props => props !! k
      | Arr elems => indexed_own elems k
      end
  | VStr s => indexed_own (characters s) k
  | _ => None
  end.

(** [v.k] and [v[k]] where the name is that of a data property: the own
    property, [undefined] when there is none, a [TypeError] on [undefined]
    and [null].  The program reads data under the names [type], [item],
    [reaction], [channel], [ts], [reactionName], [channelNames], [rules],
    [successReaction], [response], [message], [rawMessage], and under the
    own names it has just enumerated; none of the former is a name held by
    [Object.prototype], [Array.prototype], [String.prototype] or
    [Rule.prototype]. *)
Definition get_prop (h : gmap loc object) (v : value) (k : string)
    : outcome value :=
  match v with
  | VUndefined | VNull => Throw TypeError
  | _ => Normal (default VUndefined (own_property h v k))
  end.

Definition get (v : value) (k : string) : M value :=
  reading (λ h, get_prop h v k).

(** *** Methods *)

(** The functions that the prototypes hold under the names the program
    calls. *)
Inductive builtin : Type :=
  | Object_hasOwnProperty
  | Array_indexOf
  | Array_find
  | Array_map
  | String_indexOf
  | String_match
  | Rule_match
  | Rule_reactionMatches
  | Rule_channelMatches.

#[export] Instance builtin_eq_dec : EqDecision builtin.
Proof. solve_decision. Defined.

Definition Object_prototype (name : string) : option builtin :=
  if decide (name = "hasOwnProperty") then Some Object_hasOwnProperty
  else None.

Definition Array_prototype (name : string) : option builtin :=
  if decide (name = "indexOf") then Some Array_indexOf
  else if decide (name = "find") then Some Array_find
  else if decide (name = "map") then Some Array_map
  else Object_prototype name.

Definition String_prototype (name : string) : option builtin :=
  if decide (name = "indexOf") then Some String_indexOf
  else if decide (name = "match") then Some String_match
  else Object_prototype name.

(** [Rule.prototype.match = ...], [Rule.prototype.reactionMatches = ...],
    [Rule.prototype.channelMatches = ...] in [rule.js]. *)
Definition Rule_prototype (name : string) : option builtin :=
  if decide (name = "match") then Some Rule_match
  else if decide (name = "reactionMatches") then Some Rule_reactionMatches
  else if decide (name = "channelMatches") then Some Rule_channelMatches
  else Object_prototype name.

Definition inherited (p : prototype) (name : string) : option builtin :=
  match p with
  | ObjectPrototype => Object_prototype name
  | RulePrototype => Rule_prototype name
  end.

(** The function found under [name] on [v], looked up as the language
    does: an own property first, then the prototype.  [None] is a value
    that cannot be called ([undefined], or the data an own property
    holds).  The lookup itself throws on [undefined] and [null]. *)
Definition get_method (h : gmap loc object) (v : value) (name : string)
    : outcome (option builtin) :=
  match v with
  | VUndefined | VNull => Throw TypeError
  | VBool _ | VNum _ => Normal (Object_prototype name)
  | VStr _ => Normal (String_prototype name)
  | VRef l =>
      match h !!! l with
      | Obj p props =>
          match props !! name with
          | Some _ => Normal None
          | None => Normal (inherited p name)
          end
      | Arr _ => Normal (Array_prototype name)
      end
  end.

Definition method (v : value) (name : string) : M (option builtin) :=
  reading (λ h, get_method h v name).

(** The call of [f], when [f] has to be the function [b] for the call to
    go through: anything else under that name is not a function. *)
Definition call_as {A} (f : option builtin) (b : builtin) (body : M A)
    : M A :=
  if decide (f = Some b) then body else throw TypeError.

End JS.

Import JS.

(** ** The external collaborators *)

(** The messaging client as [rule.js] uses it.  [getChannelByID] is the
    resolver: a lookup in the client's table of channels, which answers
    with a value or fails. *)
Class SlackClient : Type := {
  getChannelByID : value → result value
}.

(** Modelled from the spec: the calls that [execute] makes to the messaging
    client and to the issue tracker, whose code ([lib/slack-client.js],
    [lib/github-client.js]) is not in the sources.  They are the calls of
    section 6 of the specification: the reactions of a message (channel,
    timestamp), the addition of a reaction (name, channel, timestamp), the
    post of a text in a channel, and the filing of an issue, here for a
    rule and an event, which answers with the link to the issue.  What a
    service answers may depend on the calls made so far. *)
Class Services : Type := {
  getReactions : list call → value → value → result (list value);
  addReaction : list call → value → value → value → result unit;
  postMessage : list call → value → value → result unit;
  fileIssue : list call → value → value → result value
}.

(** A call to a collaborator: the call is logged, and its answer is
    returned, or thrown as it is. *)
Definition external {A} (c : call) (answer : list call → result A) : M A :=
  λ σ,
    let σ' := State (heap σ) (trace σ ++ [c]) in
    match answer (trace σ) with
    | Returned a => (Normal a, σ')
    | Failed e => (Throw (Thrown e), σ')
    end.

(** ** Arrays *)

Definition elements (h : gmap loc object) (array : value) : list value :=
  match array with
  | VRef l => match h !!! l with Arr elems => elems | Obj _ _ => [] end
  | _ => []
  end.

(** [array.length] and [array[k]], read from the store as it is now. *)
Definition array_length (array : value) : M nat :=
  reading (λ h, Normal (length (elements h array))).

Definition array_get (array : value) (k : nat) : M value :=
  reading (λ h, Normal (default VUndefined (elements h array !! k))).

(** [Array.prototype.indexOf]: the first index whose element is strictly
    equal to [x], or [-1]. *)
Definition array_indexOf (elems : list value) (x : value) : Z :=
  match list_find (λ e, Is_true (strict_equals x e)) elems with
  | Some (i, _) => Z.of_nat i
  | None => -1
  end.

(** [String.prototype.indexOf]: the argument is converted to a string and
    searched for as a substring.  The conversion is given for the
    primitives whose conversion is a constant. *)
Definition ToString (x : value) : option string :=
  match x with
  | VUndefined => Some "undefined"
  | VNull => Some "null"
  | VBool true => Some "true"
  | VBool false => Some "false"
  | VStr t => Some t
  | VNum _ | VRef _ => None
  end.

Definition string_indexOf (s : string) (x : value) : M Z :=
  match ToString x with
  | Some t =>
      mret (match String.index 0 t s with
            | Some i => Z.of_nat i
            | None => -1
            end)
  | None => unmodelled
  end.

(** [recv.indexOf(x)], once [recv.indexOf] has been looked up as [f]:
    [get_method] finds [Array_indexOf] on arrays only and [String_indexOf]
    on strings only. *)
Definition call_indexOf (f : option builtin) (recv x : value) : M Z :=
  match f with
  | Some Array_indexOf =>
      reading (λ h, Normal (array_indexOf (elements h recv) x))
  | Some String_indexOf =>
      match recv with
      | VStr s => string_indexOf s x
      | _ => unmodelled
      end
  | _ => throw TypeError
  end.

(** [Array.prototype.find]: the length is read once, the elements as the
    loop reaches them. *)
Fixpoint find_loop (predicate : value → M bool) (array : value)
    (k n : nat) : M value :=
  match n with
  | O => mret VUndefined
  | S n' =>
      kValue ← array_get array k;
      found ← predicate kValue;
      if found : bool then mret kValue
      else find_loop predicate array (S k) n'
  end.

Definition array_find (array : value) (predicate : value → M bool)
    : M value :=
  len ← array_length array;
  find_loop predicate array 0 len.

(** [Array.prototype.map]: the callback is applied to the elements in
    order, and the results make a new array. *)
Fixpoint map_loop (callback : value → M value) (array : value)
    (k n : nat) : M (list value) :=
  match n with
  | O => mret []
  | S n' =>
      kValue ← array_get array k;
      mapped ← callback kValue;
      rest ← map_loop callback array (S k) n';
      mret (mapped :: rest)
  end.

(** ** Objects *)

(** A new object, at a fresh location of the store. *)
Definition alloc (o : object) : M loc :=
  λ σ,
    let l := fresh (dom (heap σ)) in
    (Normal l, State (<[l:=o]> (heap σ)) (trace σ)).

Definition array_map (array : value) (callback : value → M value)
    : M value :=
  len ← array_length array;
  mapped ← map_loop callback array 0 len;
  new_array ← alloc (Arr mapped);
  mret (VRef new_array).

(** [target[k] = v], where [target] is the object under construction.
    Under the name [__proto__], when the object has no own property of that
    name, the assignment reaches the accessor of [Object.prototype]: a
    primitive other than [null] is ignored, an object or [null] replaces
    the prototype, which this fragment does not follow.  The program
    assigns to no array. *)
Definition set_prop (target : loc) (k : string) (v : value) : M unit :=
  λ σ,
    match heap σ !!! target with
    | Obj p props =>
        if decide (k = "__proto__" ∧ props !! k = None) then
          match v with
          | VRef _ | VNull => (Unmodelled, σ)
          | _ => (Normal (), σ)
          end
        else
          (Normal (),
           State (<[target:=Obj p (<[k:=v]> props)]> (heap σ)) (trace σ))
    | Arr _ => (Unmodelled, σ)
    end.

(** The names that [for (var property in v)] goes through: the own
    enumerable properties, then the enumerable properties of the prototype
    that no own property hides.  The methods of [Rule.prototype] were
    assigned, hence are enumerable; [Object.prototype], [Array.prototype]
    and [String.prototype] have no enumerable property.  Nothing is
    enumerated on [undefined], [null], booleans and numbers.  The own
    properties come in the order of the finite map; the loop of the
    constructor ends in the same way in every order. *)
Definition enumerable (p : prototype) : list string :=
  match p with
  | ObjectPrototype => []
  | RulePrototype => ["match"; "reactionMatches"; "channelMatches"]
  end.

Definition for_in_keys (h : gmap loc object) (v : value) : list string :=
  match v with
  | VRef l =>
      match h !!! l with
      | Obj p props =>
          (map_to_list props).*1
            ++ filter (λ k, props !! k = None) (enumerable p)
      | Arr elems => (indexed elems).*1
      end
  | VStr s => (indexed (characters s)).*1
  | _ => []
  end.

Fixpoint for_each {A} (body : A → M unit) (l : list A) : M unit :=
  match l with
  | [] => mret ()
  | x :: rest => body x;; for_each body rest
  end.

(** ** [lib/rule.js] *)

Module Rule.
Section Rule.
Context `{SlackClient}.

(** The body of the loop of the constructor:
    [if (configRule.hasOwnProperty(property))
       this[property] = configRule[property];] *)
Definition copy_property (this : loc) (configRule : value)
    (property : string) : M unit :=
  hasOwnProperty ← method configRule "hasOwnProperty";
  own ← call_as hasOwnProperty Object_hasOwnProperty
          (reading (λ h,
             Normal (bool_decide
                       (is_Some (own_property h configRule property)))));
  if own : bool then
    v ← get configRule property;
    set_prop this property v
  else mret ().

(** [new Rule(configRule)]. *)
Definition constructor (configRule : value) : M value :=
  this ← alloc (Obj RulePrototype ∅);
  keys ← reading (λ h, Normal (for_in_keys h configRule));
  for_each (copy_property this configRule) keys;;
  mret (VRef this).

(** [Rule.prototype.reactionMatches]:
    [return message.reaction === this.reactionName;] *)
Definition reactionMatches (this message : value) : M bool :=
  reaction ← get message "reaction";
  reactionName ← get this "reactionName";
  mret (strict_equals reaction reactionName).

(** [Rule.prototype.channelMatches]:
    [var channels = this.channelNames;
     return channels === undefined ||
       channels.indexOf(slackClient.getChannelByID(message.item.channel))
         !== -1;]
    The function [channels.indexOf] is looked up before its argument is
    evaluated, and called after. *)
Definition channelMatches (this message : value) : M bool :=
  channels ← get this "channelNames";
  if strict_equals channels VUndefined then mret true
  else
    indexOf ← method channels "indexOf";
    item ← get message "item";
    channel ← get item "channel";
    name ← external (GetChannelByID channel) (λ _, getChannelByID channel);
    i ← call_indexOf indexOf channels name;
    mret (negb (i =? -1)).

(** [Rule.prototype.match]:
    [return (this.reactionMatches(message) &&
       this.channelMatches(message, slackClient));] *)
Definition match_ (this message : value) : M bool :=
  reactionMatches_ ← method this "reactionMatches";
  matched ← call_as reactionMatches_ Rule_reactionMatches
              (reactionMatches this message);
  if matched : bool then
    channelMatches_ ← method this "channelMatches";
    call_as channelMatches_ Rule_channelMatches (channelMatches this message)
  else mret false.

End Rule.
End Rule.

(** ** [lib/middleware.js] *)

Module Middleware.

(** [SlackClient.REACTION_ADDED = 'reaction_added';] *)
Definition REACTION_ADDED : string := "reaction_added".

(** The fields that the constructor sets on a [Middleware]; the two clients
    it also stores are the collaborators above. *)
Record Middleware : Type := {
  rules : value;
  successReaction : value
}.

Section Middleware.
Context `{SlackClient}.

(** [function Middleware(config, slackClient, githubClient)], with
    [this.rules = config.rules.map(function(rule) {
       return new Rule(rule); });] *)
Definition constructor (config : value) : M Middleware :=
  config_rules ← get config "rules";
  map ← method config_rules "map";
  rules_ ← call_as map Array_map (array_map config_rules Rule.constructor);
  successReaction_ ← get config "successReaction";
  mret {| rules := rules_; successReaction := successReaction_ |}.

(** [function Middleware(config, slackClient, githubClient)] as the chapter
    first gives it, before the rules are made instances of [Rule]:
    [this.rules = config.rules;
     this.successReaction = config.successReaction;] *)
Definition constructor_plain (config : value) : M Middleware :=
  rules_ ← get config "rules";
  successReaction_ ← get config "successReaction";
  mret {| rules := rules_; successReaction := successReaction_ |}.

(** The callback of [find]:
    [function(rule) { return rule.match(message, slackClient); }] *)
Definition rule_matches (message rule : value) : M bool :=
  match_ ← method rule "match";
  match match_ with
  | Some Rule_match => Rule.match_ rule message
  | Some String_match => unmodelled
  | _ => throw TypeError
  end.

(** [Middleware.prototype.findMatchingRule]:
    [if (message && message.type === SlackClient.REACTION_ADDED &&
         message.item.type === 'message') {
       return this.rules.find(function(rule) { ... });
     }] *)
Definition findMatchingRule (this : Middleware) (message : value)
    : M value :=
  if ToBoolean message then
    type ← get message "type";
    if strict_equals type (VStr REACTION_ADDED) then
      item ← get message "item";
      item_type ← get item "type";
      if strict_equals item_type (VStr "message") then
        find ← method (rules this) "find";
        call_as find Array_find
          (array_find (rules this) (rule_matches message))
      else mret VUndefined
    else mret VUndefined
  else mret VUndefined.

(** The two declarations with which [execute] starts in the source, which
    take the event out of the context that the caller hands over:
    [var response = context.response,
         message = response.message.rawMessage;] *)
Definition rawMessage (context : value) : M value :=
  response ← get context "response";
  message ← get response "message";
  get message "rawMessage".

(** What [execute] signals to its caller. *)
Inductive signal : Type :=
  | Handled
  | NotHandled.

Context `{Services}.

(** Modelled from the spec: the body of [Middleware.prototype.execute] past
    its first two declarations, which the sources stop at.  These are the
    seven steps of section 4.2 of the specification, in its order: resolve
    the rule; query the reactions of the message (channel and timestamp);
    stop as handled when the success reaction is among them; otherwise file
    an issue, add the success reaction, post the link of the issue in the
    channel, and signal handled.  A failing collaborator ends the
    sequence.  The event is the one that [rawMessage] takes out of the
    context. *)
Definition execute (this : Middleware) (message : value) : M signal :=
  rule ← findMatchingRule this message;
  if strict_equals rule VUndefined then mret NotHandled
  else
    item ← get message "item";
    channel ← get item "channel";
    ts ← get item "ts";
    reactions ← external (GetReactions channel ts)
                  (λ calls, getReactions calls channel ts);
    if existsb (strict_equals (successReaction this)) reactions
    then mret Handled
    else
      link ← external (FileIssue rule message)
               (λ calls, fileIssue calls rule message);
      external (AddReaction (successReaction this) channel ts)
        (λ calls, addReaction calls (successReaction this) channel ts);;
      external (PostMessage channel link)
        (λ calls, postMessage calls channel link);;
      mret Handled.

End Middleware.
End Middleware.

(** ** The specification's reading of a match *)

Module Spec.
Section Spec.
Context `{SlackClient}.

(** "[channelNames], if present, restricts matches to a finite set of
    channel identifiers": [name] is a member of [channels] when [channels]
    is an array one of whose elements is [name]. *)
Definition member (h : gmap loc object) (name channels : value) : Prop :=
  ∃ l names, channels = VRef l ∧ h !!! l = Arr names ∧
    Exists (λ e, strict_equals name e = true) names.

(** "Matches only if [event.reaction == reactionName]. If [channelNames]
    is unset, any channel matches; otherwise the event's channel (resolved
    from a raw channel id to a human name via the externally supplied
    resolver) must be a member of [channelNames]." *)
Definition rule_matches (h : gmap loc object) (rule message : value)
    : Prop :=
  (∃ reaction reactionName,
      get_prop h message "reaction" = Normal reaction ∧
      get_prop h rule "reactionName" = Normal reactionName ∧
      strict_equals reaction reactionName = true) ∧
  (∃ channels,
      get_prop h rule "channelNames" = Normal channels ∧
      (channels = VUndefined ∨
       ∃ item channel name,
         get_prop h message "item" = Normal item ∧
         get_prop h item "channel" = Normal channel ∧
         getChannelByID channel = Returned name ∧
         member h name channels)).

(** What a lookup of an unknown channel id yields. *)
Definition not_found (v : value) : Prop := v = VUndefined ∨ v = VNull.

(** The inputs of section 3 of the specification: the event has a reaction,
    and the rule either has no [channelNames], or has an array of them while
    the event has an item with a channel that the resolver answers for. *)
Definition well_typed (h : gmap loc object) (rule message : value) : Prop :=
  (∃ reaction, get_prop h message "reaction" = Normal reaction) ∧
  (get_prop h rule "channelNames" = Normal VUndefined ∨
   ∃ l names item channel name,
     get_prop h rule "channelNames" = Normal (VRef l) ∧
     h !!! l = Arr names ∧
     get_prop h message "item" = Normal item ∧
     get_prop h item "channel" = Normal channel ∧
     getChannelByID channel = Returned name).

End Spec.
End Spec.

(** ** Shapes of rules and events *)

(** [v.name] is the function [b]: [v] is an object whose prototype holds
    [b] under that name, and no own property of [v] hides it. *)
Definition has_method (h : gmap loc object) (v : value) (name : string)
    (b : builtin) : Prop :=
  get_method h v name = Normal (Some b).

(** An instance of [Rule] on which the three methods of [Rule.prototype]
    can be called. *)
Definition rule_instance (h : gmap loc object) (v : value) : Prop :=
  has_method h v "match" Rule_match ∧
  has_method h v "reactionMatches" Rule_reactionMatches ∧
  has_method h v "channelMatches" Rule_channelMatches.

(** The list of rules of a middleware: [this.rules] is the array [elems]. *)
Definition rule_list (h : gmap loc object) (this : Middleware.Middleware)
    (elems : list value) : Prop :=
  ∃ l, Middleware.rules this = VRef l ∧ h !!! l = Arr elems.

(** The condition under which [findMatchingRule] consults the rules:
    [message.type] is ["reaction_added"] and [message.item.type] is
    ["message"]. *)
Definition reaction_to_message (h : gmap loc object) (message : value)
    : Prop :=
  get_prop h message "type" = Normal (VStr Middleware.REACTION_ADDED) ∧
  ∃ item, get_prop h message "item" = Normal item ∧
          get_prop h item "type" = Normal (VStr "message").

(** ** What a computation does to the store and to the log *)

(** [heap_only m]: [m] leaves the store as it found it, and what it returns
    depends on the store alone, not on the calls logged so far. *)
Definition heap_only {A} (m : M A) : Prop :=
  ∀ σ, heap (m σ).2 = heap σ ∧
       ∀ σ', heap σ' = heap σ → (m σ').1 = (m σ).1.

(** [emits P m]: [m] only adds calls to the log, and every call it adds
    satisfies [P]. *)
Definition emits {A} (P : call → Prop) (m : M A) : Prop :=
  ∀ σ, ∃ calls, trace (m σ).2 = (trace σ ++ calls)%list ∧ Forall P calls.

(** The calls that only ask: the resolver and the query of reactions. *)
Definition lookup_call (c : call) : Prop :=
  match c with
  | GetChannelByID _ | GetReactions _ _ => True
  | FileIssue _ _ | AddReaction _ _ _ | PostMessage _ _ => False
  end.

(** The call [c] asks the resolver for the channel of [message]. *)
Definition asks (h : gmap loc object) (message : value) (c : call) : Prop :=
  ∃ item channel,
    get_prop h message "item" = Normal item ∧
    get_prop h item "channel" = Normal channel ∧
    c = GetChannelByID channel.

(** [lookups message n m]: [m] leaves the store alone and makes at most [n]
    calls, each of which asks the resolver for the channel of [message]. *)
Definition lookups (message : value) (n : nat) {A} (m : M A) : Prop :=
  ∀ σ, ∃ calls,
    (m σ).2 = State (heap σ) (trace σ ++ calls) ∧
    Forall (asks (heap σ) message) calls ∧
    (length calls ≤ n)%nat.

Section Failures.
Context `{SlackClient} `{Services}.

(** The failure with which the collaborator answers the call [c] made after
    [calls], if it fails. *)
Definition failure_of (calls : list call) (c : call) : option value :=
  let failure {A} (r : result A) :=
    match r with Failed e => Some e | Returned _ => None end in
  match c with
  | GetChannelByID id => failure (getChannelByID id)
  | GetReactions channel ts => failure (getReactions calls channel ts)
  | FileIssue rule message => failure (fileIssue calls rule message)
  | AddReaction name channel ts =>
      failure (addReaction calls name channel ts)
  | PostMessage channel text => failure (postMessage calls channel text)
  end.

(** [fail_stop m]: a call of [m] that fails is the last call that [m]
    makes, and its failure is what [m] throws. *)
Definition fail_stop {A} (m : M A) : Prop :=
  ∀ σ, ∃ calls,
    trace (m σ).2 = (trace σ ++ calls)%list ∧
    ∀ pre c post e,
      calls = (pre ++ c :: post)%list →
      failure_of (trace σ ++ pre)%list c = Some e →
      post = [] ∧ (m σ).1 = Throw (Thrown e).

End Failures.

(** The own properties of the rule under construction once the property
    [k] of the configuration [props] has been copied. *)
Definition copied (props acc : gmap string value) (k : string)
    : gmap string value :=
  match props !! k with
  | Some v => <[k:=v]> acc
  | None => acc
  end.

(** A configuration object from which a working rule is made: none of its
    fields takes the name of a function that the program calls on the
    configuration or on the rule, nor the name [__proto__]. *)
Definition rule_spec (props : gmap string value) : Prop :=
  Forall (λ name, props !! name = None)
    ["hasOwnProperty"; "__proto__"; "match"; "reactionMatches";
     "channelMatches"].

(** In the store [h'], [rule] is an instance of [Rule] with the fields that
    the configuration object [spec] has in the store [h]. *)
Definition made_from (h h' : gmap loc object) (spec rule : value) : Prop :=
  ∃ l l' p props,
    spec = VRef l ∧ h !! l = Some (Obj p props) ∧ rule_spec props ∧
    rule = VRef l' ∧ h' !! l' = Some (Obj RulePrototype props).

(** A configuration object of a rule as a configuration file gives it: an
    object from which a working rule is made, whose [channelNames], when it
    has one, is an array of the store. *)
Definition rule_config (h : gmap loc object) (spec : value) : Prop :=
  ∃ l p props,
    spec = VRef l ∧ h !! l = Some (Obj p props) ∧ rule_spec props ∧
    match props !! "channelNames" with
    | None | Some VUndefined => True
    | Some (VRef a) => ∃ names, h !! a = Some (Arr names)
    | Some _ => False
    end.

(** Whether the configuration object [spec] selects an event that carries
    the reaction [reaction] in the channel that the resolver names [name]:
    its [reactionName] is the reaction and its [channelNames], when it has
    one, holds the name. *)
Definition selects (h : gmap loc object) (spec reaction name : value)
    : bool :=
  match get_prop h spec "reactionName", get_prop h spec "channelNames" with
  | Normal reactionName, Normal channels =>
      strict_equals reaction reactionName &&
      (strict_equals channels VUndefined ||
       existsb (strict_equals name) (elements h channels))
  | _, _ => false
  end.

(** ** A store of examples *)

Module Example.

Definition object_of (fields : list (string * value)) : object :=
  Obj ObjectPrototype (list_to_map fields).

Definition rule_of (fields : list (string * value)) : object :=
  Obj RulePrototype (list_to_map fields).

(** The event of the end-to-end scenarios (1, 2), a rule restricted to the
    channel [general] (3, 4), an unrestricted rule (5), lists of rules (6,
    11), a configuration with a field named [hasOwnProperty] (7), an event
    without item (8), an event on a file (9, 10), and a configuration of
    the middleware with its two rules (12 to 15). *)
Definition store : gmap loc object :=
  list_to_map [
    (1%positive,
     object_of [("type", VStr "reaction_added"); ("user", VStr "U024BE7LH");
                ("item", VRef 2); ("reaction", VStr "thumbsup");
                ("event_ts", VStr "100")]);
    (2%positive,
     object_of [("type", VStr "message"); ("channel", VStr "C1");
                ("ts", VStr "100")]);
    (3%positive,
     rule_of [("reactionName", VStr "thumbsup"); ("channelNames", VRef 4)]);
    (4%positive, Arr [VStr "general"]);
    (5%positive, rule_of [("reactionName", VStr "thumbsup")]);
    (6%positive, Arr [VRef 3; VRef 5]);
    (7%positive,
     object_of [("reactionName", VStr "thumbsup");
                ("hasOwnProperty", VStr "yes")]);
    (8%positive,
     object_of [("type", VStr "reaction_added");
                ("reaction", VStr "thumbsup")]);
    (9%positive,
     object_of [("type", VStr "reaction_added"); ("item", VRef 10);
                ("reaction", VStr "thumbsup")]);
    (10%positive,
     object_of [("type", VStr "file"); ("channel", VStr "C1");
                ("ts", VStr "100")]);
    (11%positive, Arr [VRef 5]);
    (12%positive,
     object_of [("rules", VRef 13);
                ("successReaction", VStr "white_check_mark")]);
    (13%positive, Arr [VRef 14; VRef 15]);
    (14%positive,
     object_of [("reactionName", VStr "thumbsup"); ("channelNames", VRef 4)]);
    (15%positive, object_of [("reactionName", VStr "thumbsup")])
  ].

Definition start : state := State store [].

(** A messaging client that knows the channel [C1] under [name]. *)
Definition slack (name : value) : SlackClient := {|
  getChannelByID id :=
    if strict_equals id (VStr "C1") then Returned name
    else Returned VUndefined
|}.

(** A messaging client whose resolver fails. *)
Definition broken_slack : SlackClient := {|
  getChannelByID _ := Failed (VStr "channel_not_found")
|}.

(** Services on which every message carries [reactions], and which file
    every issue under the same link. *)
Definition services (reactions : list value) : Services := {|
  getReactions _ _ _ := Returned reactions;
  addReaction _ _ _ _ := Returned ();
  postMessage _ _ _ := Returned ();
  fileIssue _ _ _ := Returned (VStr "https://github.com/org/repo/issues/1")
|}.

Definition middleware (rules : loc) : Middleware.Middleware := {|
  Middleware.rules := VRef rules;
  Middleware.successReaction := VStr "white_check_mark"
|}.
Arguments middleware rules%_positive.

(** The store of examples with more in it: an event that carries another
    reaction (20), rules whose [channelNames] is [null] (21), an empty array
    (22, 23) and a string (26), and lists of rules that hold a value that is
    no rule (24) and the rule with [null] (25). *)
Definition edges : gmap loc object :=
  list_to_map [
    (20%positive,
     object_of [("type", VStr "reaction_added"); ("item", VRef 2);
                ("reaction", VStr "smile")]);
    (21%positive,
     rule_of [("reactionName", VStr "thumbsup"); ("channelNames", VNull)]);
    (22%positive,
     rule_of [("reactionName", VStr "thumbsup"); ("channelNames", VRef 23)]);
    (23%positive, Arr []);
    (24%positive, Arr [VRef 3; VRef 5; VNull]);
    (25%positive, Arr [VRef 3; VRef 21; VRef 5]);
    (26%positive,
     rule_of [("reactionName", VStr "thumbsup");
              ("channelNames", VStr "general-dev")])
  ] ∪ store.

Definition edge_start : state := State edges [].

End Example.

(** * Properties *)

(** ** Strict equality and running a computation *)

Lemma strict_equals_str v s : strict_equals v (VStr s) = true ↔ v = VStr s.
Proof.
  destruct v; simpl; try (split; [discriminate | congruence]).
  rewrite String.eqb_eq. split; congruence.
Qed.

Lemma strict_equals_undefined v :
  strict_equals v VUndefined = true ↔ v = VUndefined.
Proof. destruct v; simpl; split; congruence. Qed.

Lemma call_as_same {A} b (body : M A) : call_as (Some b) b body = body.
Proof. unfold call_as. by rewrite decide_True. Qed.

Lemma get_prop_normal h v k x k' :
  get_prop h v k = Normal x → ∃ y, get_prop h v k' = Normal y.
Proof. destruct v; simpl; try done; by eexists. Qed.

Lemma has_method_get_prop h v name b k :
  has_method h v name b → ∃ y, get_prop h v k = Normal y.
Proof. unfold has_method. destruct v; simpl; try done; by eexists. Qed.

(** A value that has a string under [type] is an object, hence true in a
    condition. *)
Lemma reaction_added_truthy h message s :
  get_prop h message "type" = Normal (VStr s) → ToBoolean message = true.
Proof.
  destruct message as [| | b | n | t | l]; simpl; try done.
  destruct t; [done | by intros _].
Qed.

Ltac run :=
  unfold mbind, M_bind, mret, M_ret, get, method, reading, throw,
    unmodelled in *; simpl in *.

(** ** Computations that only read the store *)

Lemma heap_only_ret {A} (a : A) : heap_only (mret a).
Proof. intros σ. split; [done | by intros]. Qed.

Lemma heap_only_throw {A} e : heap_only (@throw A e).
Proof. intros σ. split; [done | by intros]. Qed.

Lemma heap_only_unmodelled {A} : heap_only (@unmodelled A).
Proof. intros σ. split; [done | by intros]. Qed.

Lemma heap_only_reading {A} (f : gmap loc object → outcome A) :
  heap_only (reading f).
Proof. intros σ. split; [done | intros σ' E; cbn; by rewrite E]. Qed.

Lemma heap_only_get v k : heap_only (get v k).
Proof. apply heap_only_reading. Qed.

Lemma heap_only_method v k : heap_only (method v k).
Proof. apply heap_only_reading. Qed.

Lemma heap_only_bind {A B} (m : M A) (f : A → M B) :
  heap_only m → (∀ a, heap_only (f a)) → heap_only (m ≫= f).
Proof.
  intros Hm Hf σ. unfold mbind, M_bind.
  destruct (Hm σ) as [Hh Hr].
  split.
  - destruct (m σ) as [[a | e |] σ1]; simpl in *; try done.
    destruct (Hf a σ1) as [-> _]. done.
  - intros σ' E. specialize (Hr σ' E).
    destruct (Hm σ') as [Hh' _].
    destruct (m σ) as [[a | e |] σ1], (m σ') as [[a' | e' |] σ1'];
      simpl in *; try congruence.
    injection Hr as ->.
    destruct (Hf a σ1) as [_ Hr1]. apply Hr1. congruence.
Qed.

(** The resolver is a lookup: its answer does not depend on the log. *)
Lemma heap_only_external {A} c (r : result A) :
  heap_only (external c (λ _, r)).
Proof.
  intros σ. unfold external. split.
  - by destruct r.
  - intros σ' E. by destruct r.
Qed.

Lemma heap_only_call_as {A} f b (body : M A) :
  heap_only body → heap_only (call_as f b body).
Proof.
  intros Hb. unfold call_as. case_decide; [done | apply heap_only_throw].
Qed.

Create HintDb heap_only.

#[local] Hint Resolve heap_only_ret heap_only_throw heap_only_unmodelled
  heap_only_reading heap_only_get heap_only_method heap_only_external
  : heap_only.

Ltac heap_only_step :=
  first
    [ solve [ eauto with heap_only ]
    | apply heap_only_call_as
    | apply heap_only_bind; [ | intros ? ]
    | match goal with
      | |- heap_only (if ?b then _ else _) => destruct b
      | |- heap_only (match ?x with _ => _ end) => destruct x
      end ].

Section ReadOnly.
Context `{SlackClient}.

Lemma heap_only_reactionMatches this message :
  heap_only (Rule.reactionMatches this message).
Proof. unfold Rule.reactionMatches. repeat heap_only_step. Qed.

Lemma heap_only_call_indexOf f recv x : heap_only (call_indexOf f recv x).
Proof. unfold call_indexOf, string_indexOf. repeat heap_only_step. Qed.

Lemma heap_only_channelMatches this message :
  heap_only (Rule.channelMatches this message).
Proof.
  unfold Rule.channelMatches. pose proof heap_only_call_indexOf.
  repeat heap_only_step.
Qed.

Lemma heap_only_match this message : heap_only (Rule.match_ this message).
Proof.
  unfold Rule.match_.
  pose proof heap_only_reactionMatches. pose proof heap_only_channelMatches.
  repeat heap_only_step.
Qed.

Lemma heap_only_rule_matches message rule :
  heap_only (Middleware.rule_matches message rule).
Proof.
  unfold Middleware.rule_matches. pose proof heap_only_match.
  repeat heap_only_step.
Qed.

Lemma heap_only_find_loop predicate array k n :
  (∀ x, heap_only (predicate x)) →
  heap_only (find_loop predicate array k n).
Proof.
  intros Hp. revert k. induction n as [| n IH]; intros k; simpl.
  - eauto with heap_only.
  - unfold array_get. repeat heap_only_step.
Qed.

Lemma heap_only_findMatchingRule this message :
  heap_only (Middleware.findMatchingRule this message).
Proof.
  unfold Middleware.findMatchingRule, array_find, array_length.
  pose proof (heap_only_find_loop (Middleware.rule_matches message))
    as Hloop.
  pose proof heap_only_rule_matches.
  repeat heap_only_step.
Qed.

(** C9. Rules are immutable after construction: [Rule.match],
    [Rule.reactionMatches], [Rule.channelMatches] and
    [Middleware.findMatchingRule] leave the store of objects as they found
    it, whatever they return or throw; so every field of every rule, of the
    message and of the array of rules is the same before and after. *)
Theorem operations_leave_store (mw : Middleware.Middleware)
    (this message : value) (σ : state) :
  heap (Rule.reactionMatches this message σ).2 = heap σ ∧
  heap (Rule.channelMatches this message σ).2 = heap σ ∧
  heap (Rule.match_ this message σ).2 = heap σ ∧
  heap (Middleware.findMatchingRule mw message σ).2 = heap σ.
Proof.
  split; [apply heap_only_reactionMatches |].
  split; [apply heap_only_channelMatches |].
  split; [apply heap_only_match |].
  apply heap_only_findMatchingRule.
Qed.

End ReadOnly.

(** ** [Rule] *)

Section RuleFacts.
Context `{SlackClient}.

Lemma reactionMatches_run this message σ :
  Rule.reactionMatches this message σ =
    (match get_prop (heap σ) message "reaction",
           get_prop (heap σ) this "reactionName" with
     | Normal reaction, Normal reactionName =>
         Normal (strict_equals reaction reactionName)
     | Normal _, Throw e => Throw e
     | Normal _, Unmodelled => Unmodelled
     | Throw e, _ => Throw e
     | Unmodelled, _ => Unmodelled
     end, σ).
Proof.
  unfold Rule.reactionMatches. run.
  destruct (get_prop _ message _); [| done | done].
  by destruct (get_prop _ this _).
Qed.

(** On an instance of [Rule], [match] is [reactionMatches], followed by
    [channelMatches] when the reaction matched. *)
Lemma match_run this message σ :
  rule_instance (heap σ) this →
  Rule.match_ this message σ =
    match Rule.reactionMatches this message σ with
    | (Normal true, σ') => Rule.channelMatches this message σ'
    | other => other
    end.
Proof.
  intros (_ & Hr & Hc). unfold Rule.match_.
  unfold mbind at 1, M_bind at 1. unfold method at 1, reading at 1.
  rewrite Hr, call_as_same.
  unfold mbind at 1, M_bind at 1.
  rewrite reactionMatches_run.
  destruct (get_prop _ message _) as [reaction | |]; [| done | done].
  destruct (get_prop _ this _) as [reactionName | |]; [| done | done].
  destruct (strict_equals reaction reactionName); [| done].
  unfold mbind, M_bind, method, reading. by rewrite Hc, call_as_same.
Qed.

Lemma array_indexOf_found names name :
  negb (array_indexOf names name =? -1) = true ↔
  Exists (λ e, strict_equals name e = true) names.
Proof.
  unfold array_indexOf. rewrite Exists_exists.
  destruct (list_find _ names) as [[i e] |] eqn:Hfind.
  - apply list_find_Some in Hfind as (Hi & He & _).
    split; [intros _ | intros _].
    + exists e. split; [by eapply list_elem_of_lookup_2 |].
      by apply Is_true_true.
    + apply negb_true_iff, Z.eqb_neq. lia.
  - split; [done |]. intros (e & He & Heq).
    eapply list_find_None, Forall_forall in Hfind; [| done].
    apply Is_true_true in Heq. done.
Qed.

(** [channelMatches] on a restricted rule and an event with a channel. *)
Lemma channelMatches_array this message σ l names item channel name :
  get_prop (heap σ) this "channelNames" = Normal (VRef l) →
  heap σ !!! l = Arr names →
  get_prop (heap σ) message "item" = Normal item →
  get_prop (heap σ) item "channel" = Normal channel →
  getChannelByID channel = Returned name →
  Rule.channelMatches this message σ =
    (Normal (negb (array_indexOf names name =? -1)),
     State (heap σ) (trace σ ++ [GetChannelByID channel])).
Proof.
  intros Hch Hl Hitem Hchan Hname. unfold Rule.channelMatches. run.
  rewrite Hch. simpl. rewrite Hl, Hitem, Hchan. simpl.
  unfold external. rewrite Hname. simpl. by rewrite Hl.
Qed.

(** When [channelMatches] returns true. *)
Lemma channelMatches_iff this message σ :
  (∀ s, get_prop (heap σ) this "channelNames" ≠ Normal (VStr s)) →
  (Rule.channelMatches this message σ).1 = Normal true ↔
  ∃ channels,
    get_prop (heap σ) this "channelNames" = Normal channels ∧
    (channels = VUndefined ∨
     ∃ item channel name,
       get_prop (heap σ) message "item" = Normal item ∧
       get_prop (heap σ) item "channel" = Normal channel ∧
       getChannelByID channel = Returned name ∧
       Spec.member (heap σ) name channels).
Proof.
  intros Hstr. unfold Rule.channelMatches, Spec.member. run.
  destruct (get_prop (heap σ) this "channelNames") as [channels | |] eqn:Hch;
    [| split; [done | by intros (? & ? & _)] ..].
  destruct (strict_equals channels VUndefined) eqn:Hundef.
  { apply strict_equals_undefined in Hundef as ->. split; [| done].
    intros _. exists VUndefined. by split; [| left]. }
  assert (channels ≠ VUndefined) as Hne.
  { intros ->. done. }
  split.
  - intros Hrun. exists channels. split; [done |]. right.
    destruct (get_method (heap σ) channels "indexOf") as [f | |] eqn:Hf;
      [| done | done].
    destruct (get_prop (heap σ) message "item") as [item | |] eqn:Hitem;
      [| done | done].
    destruct (get_prop (heap σ) item "channel") as [channel | |] eqn:Hchan;
      [| done | done].
    unfold external in Hrun. simpl in Hrun.
    destruct (getChannelByID channel) as [name |] eqn:Hname; [| done].
    exists item, channel, name. do 3 (split; [done |]).
    destruct channels as [| | b | n | s | l]; simpl in Hf; try done.
    + injection Hf as <-. done.
    + injection Hf as <-. done.
    + by destruct (Hstr s).
    + destruct (heap σ !!! l) as [p props | names] eqn:Hl.
      * destruct (props !! "indexOf"); [by injection Hf as <- |].
        injection Hf as <-. by destruct p.
      * injection Hf as <-. simpl in Hrun. rewrite Hl in Hrun.
        exists l, names. do 2 (split; [done |]).
        apply array_indexOf_found. congruence.
  - intros (? & [= <-] & [-> | Hm]); [done |].
    destruct Hm as (item & channel & name & -> & -> & Hname & Hmem).
    destruct Hmem as (l & names & -> & Hl & Hex).
    simpl. rewrite Hl. simpl. unfold external. rewrite Hname. simpl.
    rewrite Hl. f_equal. by apply array_indexOf_found.
Qed.

(** C2. For every rule and every message, [Rule.match] returns true if and
    only if [message.reaction] equals ([===]) the rule's [reactionName] and
    either the rule's [channelNames] is unset or the resolver's name for
    [message.item.channel] is a member of [channelNames].  The rule is an
    instance of [Rule] whose [channelNames] is not a string; on the inputs
    of section 3 of the specification the function returns a boolean, so
    that it returns false when the condition fails. *)
Theorem match_iff (this message : value) (σ : state) :
  rule_instance (heap σ) this →
  (∀ s, get_prop (heap σ) this "channelNames" ≠ Normal (VStr s)) →
  ((Rule.match_ this message σ).1 = Normal true ↔
   Spec.rule_matches (heap σ) this message) ∧
  (Spec.well_typed (heap σ) this message →
   ∃ b, (Rule.match_ this message σ).1 = Normal b).
Proof.
  intros Hinst Hstr. rewrite match_run by done.
  rewrite reactionMatches_run. unfold Spec.rule_matches. split.
  - destruct (get_prop _ message "reaction") as [reaction | |];
      [| split; [done | by intros [(? & ? & ? & _) _]] ..].
    destruct (get_prop _ this "reactionName") as [reactionName | |];
      [| split; [done | by intros [(? & ? & _ & ? & _) _]] ..].
    destruct (strict_equals reaction reactionName) eqn:Heq.
    + rewrite channelMatches_iff by done. split; [| by intros [_ ?]].
      intros Hm. split; [| done]. by exists reaction, reactionName.
    + split; [done |]. intros [(? & ? & [= <-] & [= <-] & ?) _]. congruence.
  - intros ((reaction & ->) & Hchannels).
    destruct Hinst as (_ & Hr & _).
    destruct (has_method_get_prop _ _ _ _ "reactionName" Hr)
      as [reactionName ->].
    destruct (strict_equals reaction reactionName); [| by exists false].
    destruct Hchannels as [Hunset | Harray].
    + exists true. unfold Rule.channelMatches. run. by rewrite Hunset.
    + destruct Harray
        as (l & names & item & channel & name & ? & ? & ? & ? & ?).
      erewrite channelMatches_array by done. by eexists.
Qed.

(** C6, amended. For every rule whose [channelNames] is set, to an array of
    strings, and every message: if the resolver's lookup of the message's
    channel id, [message.item.channel], yields not-found, [Rule.match]
    returns false, and nothing is thrown. *)
Theorem match_not_found (this message : value) (σ : state) (l : loc)
    (names : list value) (item channel answer : value) :
  rule_instance (heap σ) this →
  get_prop (heap σ) this "channelNames" = Normal (VRef l) →
  heap σ !!! l = Arr names →
  Forall (λ e, ∃ s, e = VStr s) names →
  get_prop (heap σ) message "item" = Normal item →
  get_prop (heap σ) item "channel" = Normal channel →
  getChannelByID channel = Returned answer →
  Spec.not_found answer →
  (Rule.match_ this message σ).1 = Normal false.
Proof.
  intros Hinst Hch Hl Hnames Hitem Hchan Hanswer Hnf.
  rewrite match_run by done. rewrite reactionMatches_run.
  destruct Hinst as (_ & Hr & _).
  destruct (get_prop_normal _ _ _ _ "reaction" Hitem) as [reaction ->].
  destruct (has_method_get_prop _ _ _ _ "reactionName" Hr)
    as [reactionName ->].
  destruct (strict_equals reaction reactionName); [| done].
  erewrite channelMatches_array by done. simpl. f_equal.
  apply not_true_iff_false. rewrite array_indexOf_found.
  rewrite Exists_exists. intros (e & He & Heq).
  rewrite Forall_forall in Hnames. destruct (Hnames e He) as [s ->].
  by destruct Hnf as [-> | ->].
Qed.

(** C10. For every rule whose [channelNames] is unset and every message,
    [Rule.channelMatches] returns true and leaves the log of calls as it
    was: the resolver is not invoked.  Hence on such a rule [Rule.match] is
    [Rule.reactionMatches], and it returns true as soon as the reaction is
    the rule's, whatever the resolver would answer and whether or not the
    message has an [item.channel]. *)
Theorem channelMatches_unset (this message : value) (σ : state) :
  get_prop (heap σ) this "channelNames" = Normal VUndefined →
  Rule.channelMatches this message σ = (Normal true, σ) ∧
  (rule_instance (heap σ) this →
   Rule.match_ this message σ = Rule.reactionMatches this message σ ∧
   ∀ reaction reactionName,
     get_prop (heap σ) message "reaction" = Normal reaction →
     get_prop (heap σ) this "reactionName" = Normal reactionName →
     strict_equals reaction reactionName = true →
     Rule.match_ this message σ = (Normal true, σ)).
Proof.
  intros Hunset.
  assert (Hc : Rule.channelMatches this message σ = (Normal true, σ)).
  { unfold Rule.channelMatches. run. by rewrite Hunset. }
  split; [done |]. intros Hinst.
  assert (Hmatch :
    Rule.match_ this message σ = Rule.reactionMatches this message σ).
  { rewrite match_run by done. rewrite reactionMatches_run.
    destruct (get_prop _ message _) as [reaction | |]; [| done | done].
    destruct (get_prop _ this "reactionName") as [reactionName | |];
      [| done | done].
    by destruct (strict_equals reaction reactionName). }
  split; [done |].
  intros reaction reactionName Hreaction Hname Heq.
  by rewrite Hmatch, reactionMatches_run, Hreaction, Hname, Heq.
Qed.

End RuleFacts.

(** ** [Middleware.findMatchingRule] *)

Section MiddlewareFacts.
Context `{SlackClient}.

Lemma rule_matches_run message rule σ :
  rule_instance (heap σ) rule →
  Middleware.rule_matches message rule σ = Rule.match_ rule message σ.
Proof.
  intros (Hm & _). unfold Middleware.rule_matches.
  unfold mbind, M_bind, method, reading. by rewrite Hm.
Qed.

(** [find] over the elements from index [k] on: the first element on which
    the predicate returns true, having returned false on those before it;
    [undefined] when it returns false throughout.  The predicate is judged
    in the state [σ0] in which the loop started: it only reads the store,
    which the loop leaves alone. *)
Lemma find_loop_spec (p : value → M bool) array σ0 :
  (∀ x, heap_only (p x)) →
  ∀ xs k σ,
    heap σ = heap σ0 →
    drop k (elements (heap σ0) array) = xs →
    (∀ pre r post,
       xs = (pre ++ r :: post)%list →
       Forall (λ x, (p x σ0).1 = Normal false) pre →
       (p r σ0).1 = Normal true →
       (find_loop p array k (length xs) σ).1 = Normal r) ∧
    (Forall (λ x, (p x σ0).1 = Normal false) xs →
     (find_loop p array k (length xs) σ).1 = Normal VUndefined).
Proof.
  intros Hp xs. induction xs as [| x xs IH]; intros k σ Hσ Hdrop.
  { split; [by intros [] ? ? ? | done]. }
  assert (elements (heap σ0) array !! k = Some x) as Hk.
  { rewrite <- (Nat.add_0_r k), <- lookup_drop, Hdrop. done. }
  assert (drop (S k) (elements (heap σ0) array) = xs) as Hdrop'.
  { replace (S k) with (k + 1)%nat by lia.
    by rewrite <- drop_drop, Hdrop. }
  destruct (Hp x σ) as [Hheap Hout]. specialize (Hout σ0 (eq_sym Hσ)).
  assert (∀ b, (p x σ0).1 = Normal b →
    (find_loop p array k (length (x :: xs)) σ) =
      if b then (Normal x, (p x σ).2)
      else find_loop p array (S k) (length xs) (p x σ).2) as Hstep.
  { intros b Hb. simpl. unfold array_get. run. rewrite Hσ, Hk. simpl.
    rewrite Hout in Hb. destruct (p x σ) as [o σ1]. simpl in Hb.
    subst o. by destruct b. }
  destruct (IH (S k) (p x σ).2) as [IHfound IHnone];
    [congruence | done |].
  split.
  - intros pre r post Hsplit Hpre Hr.
    destruct pre as [| x' pre]; simplify_eq/=.
    + by rewrite (Hstep true).
    + inversion_clear Hpre as [| ? ? Hx Hpre'].
      rewrite (Hstep false) by done. eauto.
  - intros Hall. inversion_clear Hall as [| ? ? Hx Hxs].
    rewrite (Hstep false) by done. eauto.
Qed.

(** C1, amended. For every message whose [type] is ["reaction_added"] and
    whose [item.type] is ["message"], and every ordered list of rules,
    [Middleware.findMatchingRule] returns the first rule in configured
    order whose [match] succeeds for the message: the rule on which [match]
    returns true, having returned false on every rule before it, so that a
    later rule is never returned when an earlier one matches.  It returns
    none when [match] returns false on every rule. *)
Theorem findMatchingRule_first_match (this : Middleware.Middleware)
    (message : value) (σ : state) (elems : list value) :
  reaction_to_message (heap σ) message →
  rule_list (heap σ) this elems →
  Forall (rule_instance (heap σ)) elems →
  (∀ pre rule post,
     elems = (pre ++ rule :: post)%list →
     Forall (λ x, (Rule.match_ x message σ).1 = Normal false) pre →
     (Rule.match_ rule message σ).1 = Normal true →
     (Middleware.findMatchingRule this message σ).1 = Normal rule) ∧
  (Forall (λ x, (Rule.match_ x message σ).1 = Normal false) elems →
   (Middleware.findMatchingRule this message σ).1 = Normal VUndefined).
Proof.
  intros [Htype (item & Hitem & Hitype)] (l & Hrules & Hl) Hinst.
  assert (Middleware.findMatchingRule this message σ =
          find_loop (Middleware.rule_matches message) (Middleware.rules this)
            0 (length elems) σ) as ->.
  { unfold Middleware.findMatchingRule.
    rewrite (reaction_added_truthy _ _ _ Htype). run.
    rewrite Htype. simpl. rewrite Hitem. simpl. rewrite Hitype. simpl.
    rewrite Hrules. simpl. rewrite Hl. simpl.
    change (Array_prototype "find") with (Some Array_find).
    rewrite call_as_same. unfold array_find, array_length. run.
    by rewrite Hl. }
  assert (elements (heap σ) (Middleware.rules this) = elems) as Helems.
  { rewrite Hrules. simpl. by rewrite Hl. }
  destruct (find_loop_spec (Middleware.rule_matches message)
              (Middleware.rules this) σ (heap_only_rule_matches message)
              elems 0%nat σ eq_refl) as [Hfound Hnone].
  { by rewrite Helems. }
  assert (∀ xs b, Forall (λ x, x ∈ elems) xs →
    Forall (λ x, (Rule.match_ x message σ).1 = Normal b) xs →
    Forall (λ x, (Middleware.rule_matches message x σ).1 = Normal b) xs)
    as Hcallback.
  { intros xs b Hin Hxs. rewrite Forall_forall in *. intros x Hx.
    rewrite rule_matches_run; [by apply Hxs |]. apply Hinst, Hin, Hx. }
  split.
  - intros pre rule post -> Hpre Hrule. eapply Hfound; [done | |].
    + apply Hcallback; [| done]. apply Forall_forall. set_solver.
    + rewrite rule_matches_run; [done |].
      rewrite Forall_forall in Hinst. apply Hinst. set_solver.
  - intros Hall. apply Hnone, Hcallback; [| done]. by apply Forall_forall.
Qed.

(** C3. For every message whose [type] is not ["reaction_added"] or whose
    [item.type] is not ["message"], [findMatchingRule] returns none, for
    every list of rules.  It returns in the state in which it was called,
    and it does so whatever [this.rules] holds, be it a value on which
    [find] or [match] would throw: no rule is consulted. *)
Theorem findMatchingRule_other_event (this : Middleware.Middleware)
    (message : value) (σ : state) :
  get_prop (heap σ) message "type"
    ≠ Normal (VStr Middleware.REACTION_ADDED) ∨
  (∃ item item_type,
     get_prop (heap σ) message "item" = Normal item ∧
     get_prop (heap σ) item "type" = Normal item_type ∧
     item_type ≠ VStr "message") →
  Middleware.findMatchingRule this message σ = (Normal VUndefined, σ).
Proof.
  intros Hother. unfold Middleware.findMatchingRule.
  destruct (ToBoolean message) eqn:Htruthy; [| done]. run.
  destruct (get_prop (heap σ) message "type") as [type | |] eqn:Htype;
    [| by destruct message ..].
  destruct (strict_equals type (VStr Middleware.REACTION_ADDED)) eqn:Heq;
    [| done].
  apply strict_equals_str in Heq as ->.
  destruct Hother as [? | (item & item_type & -> & -> & Hne)]; [done |].
  simpl. destruct (strict_equals item_type (VStr "message")) eqn:Heq;
    [| done].
  by apply strict_equals_str in Heq.
Qed.

(** C5. What [findMatchingRule] does on an event that misses required
    fields.  On a null or undefined event it returns none.  On an event
    whose [type] is ["reaction_added"] and whose [item] is absent (or null)
    it throws a [TypeError], from [message.item.type]: the condition that
    guards the rules tests [message], and does not test [message.item]. *)
Theorem findMatchingRule_missing_item (this : Middleware.Middleware)
    (message : value) (σ : state) :
  (message = VNull ∨ message = VUndefined →
   Middleware.findMatchingRule this message σ = (Normal VUndefined, σ)) ∧
  (get_prop (heap σ) message "type"
     = Normal (VStr Middleware.REACTION_ADDED) →
   ∀ item,
     get_prop (heap σ) message "item" = Normal item →
     item = VUndefined ∨ item = VNull →
     Middleware.findMatchingRule this message σ = (Throw TypeError, σ)).
Proof.
  split.
  - by intros [-> | ->].
  - intros Htype item Hitem Hmissing. unfold Middleware.findMatchingRule.
    rewrite (reaction_added_truthy _ _ _ Htype). run.
    rewrite Htype. simpl. rewrite Hitem. by destruct Hmissing as [-> | ->].
Qed.

End MiddlewareFacts.

(** ** The constructor of [Rule] *)

Section ConstructorFacts.
Context `{SlackClient}.

(** C8. What the constructor does on a configuration object that has a
    field named [hasOwnProperty]: the field hides the function that the
    loop calls on the configuration, [configRule.hasOwnProperty(property)]
    is the call of a value that is not a function, and the constructor
    throws a [TypeError] instead of copying the fields. *)
Theorem constructor_hidden_hasOwnProperty (l : loc) (σ : state)
    (p : prototype) (props : gmap string value) (v : value) :
  heap σ !!! l = Obj p props →
  props !! "hasOwnProperty" = Some v →
  (Rule.constructor (VRef l) σ).1 = Throw TypeError.
Proof.
  intros Hl Hv.
  assert (is_Some (heap σ !! l)) as [o Ho].
  { destruct (heap σ !! l) as [o |] eqn:Ho; [done |].
    rewrite lookup_total_alt, Ho in Hl. simpl in Hl.
    injection Hl as <- <-. by rewrite lookup_empty in Hv. }
  assert (fresh (dom (heap σ)) ≠ l) as Hfresh.
  { intros <-. apply (is_fresh (dom (heap σ))).
    apply elem_of_dom. by exists o. }
  unfold Rule.constructor. run. unfold alloc. simpl.
  rewrite lookup_total_insert_ne by done. rewrite Hl.
  destruct (map_to_list props) as [| [k x] kvs] eqn:Hkvs.
  { apply map_to_list_empty_iff in Hkvs. subst props.
    by rewrite lookup_empty in Hv. }
  simpl. unfold Rule.copy_property. run.
  rewrite lookup_total_insert_ne by done. rewrite Hl, Hv. done.
Qed.

Lemma copy_property_run h this l p props acc k tr :
  this ≠ l →
  h !! l = Some (Obj p props) →
  props !! "hasOwnProperty" = None →
  props !! "__proto__" = None →
  Rule.copy_property this (VRef l) k
    (State (<[this:=Obj RulePrototype acc]> h) tr) =
  (Normal (),
   State (<[this:=Obj RulePrototype (copied props acc k)]> h) tr).
Proof.
  intros Hne Hl Hhas Hproto. unfold Rule.copy_property, copied. run.
  assert ((<[this:=Obj RulePrototype acc]> h) !!! l = Obj p props) as Hl'.
  { rewrite lookup_total_insert_ne by done.
    by rewrite lookup_total_alt, Hl. }
  rewrite Hl', Hhas.
  assert (inherited p "hasOwnProperty" = Some Object_hasOwnProperty) as ->.
  { by destruct p. }
  rewrite call_as_same. simpl. rewrite Hl'.
  destruct (props !! k) as [v |] eqn:Hk; simpl; [| done].
  unfold set_prop. simpl. rewrite lookup_total_insert_eq.
  rewrite decide_False.
  - by rewrite Hl', Hk, insert_insert_eq.
  - intros [-> _]. congruence.
Qed.

Lemma for_each_copy_property h this l p props tr ks :
  this ≠ l →
  h !! l = Some (Obj p props) →
  props !! "hasOwnProperty" = None →
  props !! "__proto__" = None →
  ∀ acc,
    for_each (Rule.copy_property this (VRef l)) ks
      (State (<[this:=Obj RulePrototype acc]> h) tr) =
    (Normal (),
     State (<[this:=Obj RulePrototype (foldl (copied props) acc ks)]> h) tr).
Proof.
  intros Hne Hl Hhas Hproto.
  induction ks as [| k ks IH]; intros acc; simpl; [done |].
  unfold mbind, M_bind. erewrite copy_property_run by done. apply IH.
Qed.

Lemma foldl_copied_lookup props ks acc k :
  foldl (copied props) acc ks !! k =
    match props !! k with
    | Some v => if decide (k ∈ ks) then Some v else acc !! k
    | None => acc !! k
    end.
Proof.
  revert acc. induction ks as [| k' ks IH]; intros acc; simpl.
  { by destruct (props !! k). }
  rewrite IH. unfold copied.
  destruct (props !! k) as [v |] eqn:Hk.
  - destruct (decide (k ∈ ks)) as [Hin | Hnin].
    + rewrite decide_True; [done | set_solver].
    + destruct (decide (k = k')) as [<- | Hne].
      * rewrite Hk, lookup_insert_eq. rewrite decide_True; [done | set_solver].
      * rewrite decide_False;
          [| intros [? | ?]%elem_of_cons; done].
        destruct (props !! k'); [by rewrite lookup_insert_ne | done].
  - destruct (props !! k') as [v' |] eqn:Hk'; [| done].
    rewrite lookup_insert_ne; [done | congruence].
Qed.

(** The constructor on a configuration object whose own method
    [hasOwnProperty] is the inherited one: the loop goes through the
    enumerable names and copies the own ones. *)
Lemma constructor_run h tr l p props :
  h !! l = Some (Obj p props) →
  props !! "hasOwnProperty" = None →
  props !! "__proto__" = None →
  Rule.constructor (VRef l) (State h tr) =
    (Normal (VRef (fresh (dom h))),
     State (<[fresh (dom h):=Obj RulePrototype props]> h) tr).
Proof.
  intros Hl Hhas Hproto.
  assert (fresh (dom h) ≠ l) as Hfresh.
  { intros <-. apply (is_fresh (dom h)).
    apply elem_of_dom. by eexists. }
  unfold Rule.constructor. unfold mbind at 1, M_bind at 1. unfold alloc.
  cbn [heap trace]. unfold mbind at 1, M_bind at 1, reading at 1.
  cbn [heap trace]. unfold mbind, M_bind.
  erewrite for_each_copy_property by done.
  unfold mret, M_ret. do 4 f_equal.
  apply map_eq. intros k. rewrite foldl_copied_lookup, lookup_empty.
  unfold for_in_keys.
  rewrite lookup_total_insert_ne by done.
  rewrite lookup_total_alt, Hl. simpl.
  destruct (props !! k) as [v |] eqn:Hk; [| done].
  rewrite decide_True; [done |].
  apply elem_of_app. left. apply list_elem_of_fmap.
  exists (k, v). split; [done |]. by apply elem_of_map_to_list.
Qed.

(** On a configuration object that has no field named [hasOwnProperty] or
    [__proto__], the constructor makes a new instance of [Rule] whose own
    properties are the fields of the configuration, each with its value;
    nothing else in the store changes and no collaborator is called. *)
Theorem constructor_copies (l : loc) (σ : state) (p : prototype)
    (props : gmap string value) :
  heap σ !! l = Some (Obj p props) →
  props !! "hasOwnProperty" = None →
  props !! "__proto__" = None →
  Rule.constructor (VRef l) σ =
    (Normal (VRef (fresh (dom (heap σ)))),
     State (<[fresh (dom (heap σ)):=Obj RulePrototype props]> (heap σ))
       (trace σ)).
Proof.
  intros Hl Hhas Hproto. destruct σ as [h tr]. simpl in *.
  by eapply constructor_run.
Qed.

Lemma made_from_weaken h h1 h2 spec rule :
  h1 ⊆ h2 → made_from h h1 spec rule → made_from h h2 spec rule.
Proof.
  intros Hsub (l & l' & p & props & ? & ? & ? & ? & Hl').
  exists l, l', p, props. repeat split; try done.
  by eapply lookup_weaken.
Qed.

(** A rule made from a configuration is an instance of [Rule] on which the
    three methods can be called, and it reads as the configuration does. *)
Lemma made_from_rule_instance h h' spec rule :
  made_from h h' spec rule → rule_instance h' rule.
Proof.
  intros (l & l' & p & props & _ & _ & Hspec & -> & Hl').
  unfold rule_spec in Hspec. rewrite !Forall_cons in Hspec.
  destruct Hspec as (_ & _ & Hm & Hr & Hc & _).
  unfold rule_instance, has_method. simpl.
  rewrite lookup_total_alt, Hl'. simpl. by rewrite Hm, Hr, Hc.
Qed.

Lemma made_from_get_prop h h' spec rule k :
  made_from h h' spec rule → get_prop h' rule k = get_prop h spec k.
Proof.
  intros (l & l' & p & props & -> & Hl & _ & -> & Hl'). simpl.
  by rewrite !lookup_total_alt, Hl, Hl'.
Qed.

(** [map] with [new Rule] over the configurations from index [k] on: one
    rule per configuration, in the same order, each at a fresh location. *)
Lemma map_loop_constructor σ array specs :
  elements (heap σ) array = specs →
  (∃ a, array = VRef a ∧ is_Some (heap σ !! a)) →
  Forall (λ spec, ∃ l p props,
            spec = VRef l ∧ heap σ !! l = Some (Obj p props) ∧
            rule_spec props) specs →
  ∀ rest k σ1,
    heap σ ⊆ heap σ1 →
    drop k specs = rest →
    ∃ rules σ2,
      map_loop Rule.constructor array k (length rest) σ1
        = (Normal rules, σ2) ∧
      heap σ1 ⊆ heap σ2 ∧ trace σ2 = trace σ1 ∧
      Forall2 (made_from (heap σ) (heap σ2)) rest rules.
Proof.
  intros Helems (a & -> & [o Ha]) Hspecs rest.
  induction rest as [| spec rest IH]; intros k σ1 Hsub Hdrop.
  { exists [], σ1. simpl. by repeat split. }
  assert (specs !! k = Some spec) as Hk.
  { rewrite <- (Nat.add_0_r k), <- lookup_drop, Hdrop. done. }
  assert (drop (S k) specs = rest) as Hdrop'.
  { replace (S k) with (k + 1)%nat by lia. by rewrite <- drop_drop, Hdrop. }
  assert (elements (heap σ1) (VRef a) = specs) as Helems1.
  { rewrite <- Helems. simpl.
    by rewrite !lookup_total_alt, Ha, (lookup_weaken _ _ _ _ Ha Hsub). }
  rewrite Forall_forall in Hspecs.
  destruct (Hspecs spec) as (l & p & props & -> & Hl & Hspec).
  { by eapply list_elem_of_lookup_2. }
  pose proof Hspec as Hnames. unfold rule_spec in Hnames.
  rewrite !Forall_cons in Hnames. destruct Hnames as (Hhas & Hproto & _).
  set (l' := fresh (dom (heap σ1))).
  set (σ1' := State (<[l':=Obj RulePrototype props]> (heap σ1)) (trace σ1)).
  assert (Rule.constructor (VRef l) σ1 = (Normal (VRef l'), σ1')) as Hnew.
  { pose proof (lookup_weaken _ _ _ _ Hl Hsub). subst l' σ1'.
    destruct σ1 as [h1 tr1]. by eapply constructor_run. }
  assert (heap σ1 ⊆ heap σ1') as Hsub1.
  { apply insert_subseteq, not_elem_of_dom, is_fresh. }
  destruct (IH (S k) σ1') as (rules & σ2 & Hloop & Hsub2 & Htrace & Hmade);
    [by etrans | done |].
  exists (VRef l' :: rules), σ2. split; [| split; [| split]].
  - simpl. unfold array_get.
    unfold mbind, M_bind, mret, M_ret, reading. simpl.
    fold (elements (heap σ1) (VRef a)). rewrite Helems1, Hk. simpl.
    rewrite Hnew. by rewrite Hloop.
  - by etrans.
  - done.
  - constructor; [| done].
    exists l, l', p, props. repeat split; try done.
    eapply lookup_weaken; [| done]. apply lookup_insert_eq.
Qed.

Lemma get_run v k σ : get v k σ = (get_prop (heap σ) v k, σ).
Proof. reflexivity. Qed.

Lemma method_run v k σ : method v k σ = (get_method (heap σ) v k, σ).
Proof. reflexivity. Qed.

(** The constructor of [Middleware], once [map] has made the rules. *)
Lemma Middleware_constructor_run config σ a specs success rules σ2 :
  get_prop (heap σ) config "rules" = Normal (VRef a) →
  heap σ !! a = Some (Arr specs) →
  get_prop (heap σ) config "successReaction" = Normal success →
  map_loop Rule.constructor (VRef a) 0 (length specs) σ
    = (Normal rules, σ2) →
  heap σ ⊆ heap σ2 →
  Middleware.constructor config σ =
    (Normal {| Middleware.rules := VRef (fresh (dom (heap σ2)));
               Middleware.successReaction := success |},
     State (<[fresh (dom (heap σ2)):=Arr rules]> (heap σ2)) (trace σ2)).
Proof.
  intros Hrules Ha Hsuccess Hloop Hsub.
  set (l := fresh (dom (heap σ2))).
  assert (heap σ2 ⊆ <[l:=Arr rules]> (heap σ2)) as Hsub'.
  { apply insert_subseteq, not_elem_of_dom, is_fresh. }
  assert (get_prop (<[l:=Arr rules]> (heap σ2)) config "successReaction"
          = Normal success) as Hsuccess'.
  { destruct config as [| | b | n | s | c]; try done.
    simpl in *. destruct (heap σ !! c) as [o |] eqn:Hc.
    - assert (<[l:=Arr rules]> (heap σ2) !! c = Some o) as Hc'.
      { eapply lookup_weaken; [done | by etrans]. }
      rewrite lookup_total_alt, Hc'.
      by rewrite lookup_total_alt, Hc in Hsuccess.
    - rewrite lookup_total_alt, Hc in Hrules. simpl in Hrules.
      by rewrite lookup_empty in Hrules. }
  unfold Middleware.constructor.
  unfold mbind at 1, M_bind at 1. rewrite get_run, Hrules.
  unfold mbind at 1, M_bind at 1. rewrite method_run. simpl.
  rewrite lookup_total_alt, Ha. simpl.
  change (Array_prototype "map") with (Some Array_map).
  rewrite call_as_same.
  unfold mbind at 1, M_bind at 1.
  assert (array_map (VRef a) Rule.constructor σ
          = (Normal (VRef l),
             State (<[l:=Arr rules]> (heap σ2)) (trace σ2))) as ->.
  { unfold array_map, array_length.
    unfold mbind at 1, M_bind at 1. unfold reading at 1. simpl.
    rewrite lookup_total_alt, Ha. simpl.
    unfold mbind at 1, M_bind at 1. rewrite Hloop.
    reflexivity. }
  unfold mbind, M_bind. rewrite get_run. cbn [heap]. rewrite Hsuccess'.
  reflexivity.
Qed.

(** The constructor of [Middleware], on a configuration whose [rules] is an
    array of configuration objects: [this.rules] is a new array that holds
    one instance of [Rule] per configuration object, in the configured
    order, each with the fields of its configuration object;
    [this.successReaction] is the configured one; the objects that were
    in the store are left as they were, and no collaborator is called. *)
Theorem Middleware_constructor_rules (config : value) (σ : state) (a : loc)
    (specs : list value) (success : value) :
  get_prop (heap σ) config "rules" = Normal (VRef a) →
  heap σ !! a = Some (Arr specs) →
  Forall (λ spec, ∃ l p props,
            spec = VRef l ∧ heap σ !! l = Some (Obj p props) ∧
            rule_spec props) specs →
  get_prop (heap σ) config "successReaction" = Normal success →
  ∃ this σ' rules,
    Middleware.constructor config σ = (Normal this, σ') ∧
    Middleware.successReaction this = success ∧
    rule_list (heap σ') this rules ∧
    Forall2 (made_from (heap σ) (heap σ')) specs rules ∧
    heap σ ⊆ heap σ' ∧ trace σ' = trace σ.
Proof.
  intros Hrules Ha Hspecs Hsuccess.
  assert (elements (heap σ) (VRef a) = specs) as Helems.
  { simpl. by rewrite lookup_total_alt, Ha. }
  destruct (map_loop_constructor σ (VRef a) specs Helems) with
    (rest := specs) (k := 0%nat) (σ1 := σ)
    as (rules & σ2 & Hloop & Hsub & Htrace & Hmade);
    [by eauto | done | done | done |].
  set (l := fresh (dom (heap σ2))).
  assert (heap σ2 ⊆ <[l:=Arr rules]> (heap σ2)) as Hsub'.
  { apply insert_subseteq, not_elem_of_dom, is_fresh. }
  exists {| Middleware.rules := VRef l;
            Middleware.successReaction := success |},
    (State (<[l:=Arr rules]> (heap σ2)) (trace σ2)), rules.
  split; [| split; [done | split; [| split; [| split]]]].
  - by apply (Middleware_constructor_run config σ a specs).
  - exists l. split; [done |]. simpl. by rewrite lookup_total_insert_eq.
  - eapply Forall2_impl; [done |]. intros spec rule.
    by apply made_from_weaken.
  - by etrans.
  - done.
Qed.

End ConstructorFacts.

(** ** The calls that a computation logs *)

Lemma emits_silent {A} P (m : M A) :
  (∀ σ, trace (m σ).2 = trace σ) → emits P m.
Proof. intros Hm σ. exists []. by rewrite Hm, app_nil_r. Qed.

Lemma emits_bind {A B} P (m : M A) (f : A → M B) :
  emits P m → (∀ a, emits P (f a)) → emits P (m ≫= f).
Proof.
  intros Hm Hf σ. unfold mbind, M_bind.
  destruct (Hm σ) as (calls & Htrace & Hcalls).
  destruct (m σ) as [[a | e |] σ1]; simpl in *; [| by exists calls ..].
  destruct (Hf a σ1) as (calls' & Htrace' & Hcalls').
  exists (calls ++ calls')%list. split.
  - by rewrite Htrace', Htrace, app_assoc.
  - by apply Forall_app.
Qed.

Lemma emits_external {A} (P : call → Prop) c
    (answer : list call → result A) :
  P c → emits P (external c answer).
Proof.
  intros Hc σ. exists [c]. unfold external.
  split; [by destruct (answer _) | by constructor].
Qed.

Lemma emits_call_as {A} P f b (body : M A) :
  emits P body → emits P (call_as f b body).
Proof.
  intros Hb. unfold call_as. case_decide; [done | by apply emits_silent].
Qed.

Ltac emits_step :=
  first
    [ by apply emits_silent
    | by apply emits_external
    | apply emits_call_as
    | apply emits_bind; [ | intros ? ]
    | match goal with
      | H : _ |- _ => solve [ apply H ]
      | |- emits _ (if ?b then _ else _) => destruct b
      | |- emits _ (match ?x with _ => _ end) => destruct x
      end ].

Section Calls.
Context `{SlackClient} `{Services}.

(** [findMatchingRule] calls no collaborator but the resolver. *)
Lemma emits_findMatchingRule this message :
  emits lookup_call (Middleware.findMatchingRule this message).
Proof.
  assert (∀ f recv x, emits lookup_call (call_indexOf f recv x)) as Hidx.
  { intros. unfold call_indexOf, string_indexOf. repeat emits_step. }
  assert (∀ this message,
            emits lookup_call (Rule.channelMatches this message)) as Hc.
  { intros. unfold Rule.channelMatches. repeat emits_step. }
  assert (∀ this message, emits lookup_call (Rule.match_ this message))
    as Hm.
  { intros. unfold Rule.match_, Rule.reactionMatches. repeat emits_step. }
  assert (∀ rule, emits lookup_call (Middleware.rule_matches message rule))
    as Hr.
  { intros. unfold Middleware.rule_matches. repeat emits_step. }
  assert (∀ array k n, emits lookup_call
            (find_loop (Middleware.rule_matches message) array k n)) as Hl.
  { intros array k n. revert k. induction n as [| n IH]; intros k; simpl.
    - by apply emits_silent.
    - unfold array_get. repeat emits_step. }
  unfold Middleware.findMatchingRule, array_find, array_length.
  repeat emits_step.
Qed.

Lemma fail_stop_silent {A} (m : M A) :
  (∀ σ, trace (m σ).2 = trace σ) → fail_stop m.
Proof.
  intros Hm σ. exists []. rewrite Hm, app_nil_r. split; [done |].
  by intros [] ? ? ? ?.
Qed.

Lemma fail_stop_bind {A B} (m : M A) (f : A → M B) :
  fail_stop m → (∀ a, fail_stop (f a)) → fail_stop (m ≫= f).
Proof.
  intros Hm Hf σ. unfold mbind, M_bind.
  destruct (Hm σ) as (calls & Htrace & Hcalls).
  destruct (m σ) as [[a | e |] σ1]; simpl in *;
    [| exists calls; split; [done |];
       intros pre c post e' Hsplit Hfail;
       destruct (Hcalls pre c post e' Hsplit Hfail) as [-> ?];
       by simplify_eq ..].
  destruct (Hf a σ1) as (calls' & Htrace' & Hcalls').
  exists (calls ++ calls')%list. split.
  { by rewrite Htrace', Htrace, app_assoc. }
  intros pre c post e Hsplit Hfail.
  apply app_eq_inv in Hsplit as [(k & -> & Hk) | (k & -> & Hk)].
  - destruct k as [| c' k]; simpl in Hk.
    + rewrite app_nil_r in *. apply (Hcalls' [] c post e); [done |].
      by rewrite Htrace, app_nil_r.
    + injection Hk as <- ->.
      by destruct (Hcalls pre c k e eq_refl Hfail) as [_ ?].
  - eapply Hcalls'; [done |]. by rewrite Htrace, <- app_assoc.
Qed.

Lemma fail_stop_external {A} c (answer : list call → result A) :
  (∀ calls, failure_of calls c =
            match answer calls with
            | Failed e => Some e
            | Returned _ => None
            end) →
  fail_stop (external c answer).
Proof.
  intros Hc σ. exists [c]. unfold external. specialize (Hc (trace σ)).
  split; [by destruct (answer _) |].
  intros pre c' post e Hsplit Hfail.
  destruct pre as [| ? [| ? ?]]; simplify_eq/=.
  rewrite app_nil_r, Hc in Hfail. destruct (answer _); by simplify_eq.
Qed.

Lemma fail_stop_call_as {A} f b (body : M A) :
  fail_stop body → fail_stop (call_as f b body).
Proof.
  intros Hb. unfold call_as.
  case_decide; [done | by apply fail_stop_silent].
Qed.

Ltac fail_stop_step :=
  first
    [ by apply fail_stop_silent
    | by apply fail_stop_external
    | apply fail_stop_call_as
    | apply fail_stop_bind; [ | intros ? ]
    | match goal with
      | H : _ |- _ => solve [ apply H ]
      | |- fail_stop (if ?b then _ else _) => destruct b
      | |- fail_stop (match ?x with _ => _ end) => destruct x
      end ].

Lemma fail_stop_findMatchingRule this message :
  fail_stop (Middleware.findMatchingRule this message).
Proof.
  assert (∀ f recv x, fail_stop (call_indexOf f recv x)) as Hidx.
  { intros. unfold call_indexOf, string_indexOf. repeat fail_stop_step. }
  assert (∀ this message, fail_stop (Rule.channelMatches this message))
    as Hc.
  { intros. unfold Rule.channelMatches. repeat fail_stop_step. }
  assert (∀ this message, fail_stop (Rule.match_ this message)) as Hm.
  { intros. unfold Rule.match_, Rule.reactionMatches.
    repeat fail_stop_step. }
  assert (∀ rule, fail_stop (Middleware.rule_matches message rule))
    as Hr.
  { intros. unfold Middleware.rule_matches. repeat fail_stop_step. }
  assert (∀ array k n, fail_stop
            (find_loop (Middleware.rule_matches message) array k n)) as Hl.
  { intros array k n. revert k. induction n as [| n IH]; intros k; simpl.
    - by apply fail_stop_silent.
    - unfold array_get. repeat fail_stop_step. }
  unfold Middleware.findMatchingRule, array_find, array_length.
  repeat fail_stop_step.
Qed.

(** ** [Middleware.execute] *)

(** C4, amended. Idempotent short-circuit of [execute]: for every event
    that matches a rule and whose message's current reactions already
    include the configured success reaction, [execute] signals handled
    without filing an issue and without adding a reaction: the calls it
    makes are lookups, those of the resolver and the query of the
    reactions.  This holds in every state, the one left by an earlier call
    of [execute] on the event included. *)
Theorem execute_already_processed (this : Middleware.Middleware)
    (message : value) (σ σ1 : state) (rule item channel ts : value)
    (reactions : list value) :
  Middleware.findMatchingRule this message σ = (Normal rule, σ1) →
  rule ≠ VUndefined →
  get_prop (heap σ) message "item" = Normal item →
  get_prop (heap σ) item "channel" = Normal channel →
  get_prop (heap σ) item "ts" = Normal ts →
  getReactions (trace σ1) channel ts = Returned reactions →
  Exists (λ name, strict_equals (Middleware.successReaction this) name = true)
    reactions →
  ∃ calls,
    Middleware.execute this message σ =
      (Normal Middleware.Handled, State (heap σ) (trace σ ++ calls)) ∧
    Forall lookup_call calls.
Proof.
  intros Hfind Hrule Hitem Hchannel Hts Hreactions Hsuccess.
  destruct (heap_only_findMatchingRule this message σ) as [Hheap _].
  destruct (emits_findMatchingRule this message σ)
    as (calls & Htrace & Hcalls).
  rewrite Hfind in Hheap, Htrace. simpl in Hheap, Htrace.
  exists (calls ++ [GetReactions channel ts])%list. split.
  - unfold Middleware.execute. unfold mbind at 1, M_bind at 1.
    rewrite Hfind.
    destruct (strict_equals rule VUndefined) eqn:Heq.
    { by apply strict_equals_undefined in Heq. }
    run. rewrite Hheap, Hitem. simpl. rewrite Hchannel. simpl. rewrite Hts.
    unfold external. rewrite Hreactions. simpl.
    replace (existsb _ reactions) with true.
    + by rewrite Hheap, Htrace, app_assoc.
    + symmetry. apply existsb_exists. apply Exists_exists in Hsuccess
        as (name & Hin & Hname).
      exists name. split; [by apply list_elem_of_In | done].
  - apply Forall_app. split; [done |]. by repeat constructor.
Qed.

(** C7. For every event handled by [execute], if a call to an external
    collaborator (resolve the channel, get the reactions, file the issue,
    add the reaction, post the message) fails, it is the last call that
    [execute] makes for the event: none of the remaining steps is
    performed and the call is not made again, and [execute] throws that
    failure to its caller as the collaborator threw it. *)
Theorem execute_failure_surfaces (this : Middleware.Middleware)
    (message : value) (σ : state) :
  ∃ calls,
    trace (Middleware.execute this message σ).2 = (trace σ ++ calls)%list ∧
    ∀ pre c post e,
      calls = (pre ++ c :: post)%list →
      failure_of (trace σ ++ pre)%list c = Some e →
      post = [] ∧
      (Middleware.execute this message σ).1 = Throw (Thrown e).
Proof.
  revert σ. change (fail_stop (Middleware.execute this message)).
  pose proof fail_stop_findMatchingRule.
  unfold Middleware.execute. repeat fail_stop_step.
Qed.

End Calls.

(** ** Edges of [Rule.match] *)

Section RuleEdges.
Context `{SlackClient}.

(** A rule whose [reactionName] is not the reaction of the event does not
    match: [match] returns false in the state in which it was called, so
    that [channelMatches] is not run and the resolver is not asked,
    whatever [channelNames] and the item of the event are. *)
Theorem match_reaction_differs (this message : value) (σ : state)
    (reaction reactionName : value) :
  rule_instance (heap σ) this →
  get_prop (heap σ) message "reaction" = Normal reaction →
  get_prop (heap σ) this "reactionName" = Normal reactionName →
  strict_equals reaction reactionName = false →
  Rule.match_ this message σ = (Normal false, σ).
Proof.
  intros Hinst Hreaction Hname Hdiffer.
  rewrite match_run by done.
  by rewrite reactionMatches_run, Hreaction, Hname, Hdiffer.
Qed.

(** A rule whose [channelNames] is set to something that is neither an
    array nor a string (null, a boolean, a number, an object) never gets an
    answer from [channelMatches]: [channels.indexOf] is not a function, and
    the call ends in a [TypeError], unless the resolver failed first, in
    which case its failure is thrown.  With [null] the [TypeError] comes
    from the lookup of [indexOf], before the resolver is asked. *)
Theorem channelMatches_not_array (this message : value) (σ : state)
    (channels : value) :
  get_prop (heap σ) this "channelNames" = Normal channels →
  channels ≠ VUndefined →
  (∀ s, channels ≠ VStr s) →
  (∀ l names, channels = VRef l → heap σ !!! l ≠ Arr names) →
  ((Rule.channelMatches this message σ).1 = Throw TypeError ∨
   ∃ channel e,
     getChannelByID channel = Failed e ∧
     (Rule.channelMatches this message σ).1 = Throw (Thrown e)) ∧
  (channels = VNull →
   Rule.channelMatches this message σ = (Throw TypeError, σ)).
Proof.
  intros Hch Hundef Hstr Harr. unfold Rule.channelMatches. run.
  rewrite Hch. simpl.
  destruct (strict_equals channels VUndefined) eqn:Heq.
  { by apply strict_equals_undefined in Heq. }
  split; [| intros ->; reflexivity].
  assert (get_method (heap σ) channels "indexOf" = Throw TypeError ∨
          get_method (heap σ) channels "indexOf" = Normal None) as [-> | ->].
  { destruct channels as [| | b | n | s | l]; simpl; auto.
    - by destruct (Hstr s).
    - destruct (heap σ !!! l) as [p props | names] eqn:Hl.
      + destruct (props !! "indexOf"); [by right |]. right. by destruct p.
      + by destruct (Harr l names). }
  { by left. }
  destruct (get_prop (heap σ) message "item") as [item | e |] eqn:Hitem;
    [| left; destruct message; by simplify_eq/= | by destruct message].
  destruct (get_prop (heap σ) item "channel") as [channel | e |] eqn:Hchan;
    [| left; destruct item; by simplify_eq/= | by destruct item].
  unfold external. simpl.
  destruct (getChannelByID channel) as [name | e] eqn:Hname; simpl.
  - by left.
  - right. by exists channel, e.
Qed.

(** A rule whose [channelNames] is the empty array matches no event:
    [match] never returns true on it, whatever the event and the
    resolver. *)
Theorem match_empty_channelNames (this message : value) (σ : state)
    (l : loc) :
  rule_instance (heap σ) this →
  get_prop (heap σ) this "channelNames" = Normal (VRef l) →
  heap σ !!! l = Arr [] →
  (Rule.match_ this message σ).1 ≠ Normal true.
Proof.
  intros Hinst Hch Hl Hmatch.
  rewrite match_run in Hmatch by done.
  rewrite reactionMatches_run in Hmatch.
  destruct (get_prop _ message "reaction") as [reaction | |]; [| done ..].
  destruct (get_prop _ this "reactionName") as [name | |]; [| done ..].
  destruct (strict_equals reaction name); [| done].
  apply channelMatches_iff in Hmatch
    as (channels & Hch' & [-> | (_ & _ & ? & _ & _ & _ & Hmem)]).
  - congruence.
  - destruct Hmem as (l' & names & -> & Hl' & Hex).
    rewrite Hch in Hch'. injection Hch' as <-. rewrite Hl in Hl'.
    injection Hl' as <-. by apply Exists_nil in Hex.
  - intros s. by rewrite Hch.
Qed.

(** When the reaction of the event is the rule's, [channelNames] is set,
    and the resolver fails on the channel of the event, [match] throws the
    failure of the resolver as it is, after that one call. *)
Theorem match_resolver_fails (this message : value) (σ : state)
    (channels reaction reactionName item channel e : value) :
  rule_instance (heap σ) this →
  get_prop (heap σ) this "channelNames" = Normal channels →
  channels ≠ VUndefined → channels ≠ VNull →
  get_prop (heap σ) message "reaction" = Normal reaction →
  get_prop (heap σ) this "reactionName" = Normal reactionName →
  strict_equals reaction reactionName = true →
  get_prop (heap σ) message "item" = Normal item →
  get_prop (heap σ) item "channel" = Normal channel →
  getChannelByID channel = Failed e →
  Rule.match_ this message σ =
    (Throw (Thrown e), State (heap σ) (trace σ ++ [GetChannelByID channel])).
Proof.
  intros Hinst Hch Hundef Hnull Hreaction Hname Heq Hitem Hchan Hfail.
  rewrite match_run by done.
  rewrite reactionMatches_run, Hreaction, Hname, Heq.
  unfold Rule.channelMatches. run. rewrite Hch. simpl.
  destruct (strict_equals channels VUndefined) eqn:Hu.
  { by apply strict_equals_undefined in Hu. }
  destruct (get_method (heap σ) channels "indexOf") as [f | |] eqn:Hf;
    [| by destruct channels as [| | | | | l];
         [.. | simpl in Hf; destruct (heap σ !!! l) as [? props |];
               [destruct (props !! "indexOf") |]] ..].
  rewrite Hitem. simpl. rewrite Hchan. simpl.
  unfold external. by rewrite Hfail.
Qed.

Lemma index_empty s : String.index 0 "" s = Some 0%nat.
Proof. by destruct s. Qed.

(** A rule whose [channelNames] is a string, not an array of strings:
    [channels.indexOf] is then [String.prototype.indexOf], and
    [channelMatches] returns true exactly when the name that the resolver
    gives is a substring of [channelNames]. *)
Theorem channelMatches_string (this message : value) (σ : state)
    (s name : string) (item channel : value) :
  get_prop (heap σ) this "channelNames" = Normal (VStr s) →
  get_prop (heap σ) message "item" = Normal item →
  get_prop (heap σ) item "channel" = Normal channel →
  getChannelByID channel = Returned (VStr name) →
  ∃ b,
    Rule.channelMatches this message σ =
      (Normal b, State (heap σ) (trace σ ++ [GetChannelByID channel])) ∧
    (b = true ↔ ∃ i, String.substring i (String.length name) s = name).
Proof.
  intros Hch Hitem Hchan Hname. unfold Rule.channelMatches. run.
  rewrite Hch. simpl. rewrite Hitem. simpl. rewrite Hchan. simpl.
  unfold external. rewrite Hname. simpl.
  destruct (String.index 0 name s) as [i |] eqn:Hindex.
  - exists true. split.
    + f_equal. f_equal. apply negb_true_iff, Z.eqb_neq. lia.
    + split; [intros _ | done]. exists i.
      by eapply String.index_correct1.
  - exists false. split; [done |]. split; [done |]. intros [i Hi].
    exfalso. destruct name as [| c name].
    + by rewrite index_empty in Hindex.
    + eapply (String.index_correct3 0 i); [done | done | lia | done].
Qed.

End RuleEdges.

(** ** The calls of [findMatchingRule] *)

Lemma lookups_silent message n {A} (m : M A) :
  (∀ σ, (m σ).2 = σ) → lookups message n m.
Proof.
  intros Hm σ. exists []. rewrite Hm, app_nil_r.
  split; [by destruct σ |]. split; [done | simpl; lia].
Qed.

Lemma lookups_bind message n1 n2 {A B} (m : M A) (f : A → M B) :
  lookups message n1 m → (∀ a, lookups message n2 (f a)) →
  lookups message (n1 + n2) (m ≫= f).
Proof.
  intros Hm Hf σ. unfold mbind, M_bind.
  destruct (Hm σ) as (calls & Hstate & Hcalls & Hlen).
  destruct (m σ) as [[a | e |] σ1]; simpl in *;
    [| exists calls; repeat split; [done | done | lia] ..].
  destruct (Hf a σ1) as (calls' & Hstate' & Hcalls' & Hlen').
  subst σ1. simpl in *.
  exists (calls ++ calls')%list. split; [| split].
  - by rewrite Hstate', app_assoc.
  - by apply Forall_app.
  - rewrite length_app. lia.
Qed.

Lemma lookups_call_as message n {A} f b (body : M A) :
  lookups message n body → lookups message n (call_as f b body).
Proof.
  intros Hb. unfold call_as. case_decide; [done | by apply lookups_silent].
Qed.

Section Lookups.
Context `{SlackClient}.

Lemma call_indexOf_state f recv x σ : (call_indexOf f recv x σ).2 = σ.
Proof.
  unfold call_indexOf, string_indexOf.
  repeat case_match; reflexivity.
Qed.

Lemma channelMatches_lookups this message :
  lookups message 1 (Rule.channelMatches this message).
Proof.
  intros σ. unfold Rule.channelMatches. run.
  assert (∃ calls : list call,
            σ = State (heap σ) (trace σ ++ calls) ∧
            Forall (asks (heap σ) message) calls ∧ (length calls ≤ 1)%nat)
    as Hquiet.
  { exists []. rewrite app_nil_r. split; [by destruct σ |].
    split; [done | simpl; lia]. }
  destruct (get_prop (heap σ) this "channelNames") as [channels | |];
    [| done ..].
  destruct (strict_equals channels VUndefined); [done |].
  destruct (get_method (heap σ) channels "indexOf") as [f | |]; [| done ..].
  destruct (get_prop (heap σ) message "item") as [item | |] eqn:Hitem;
    [| done ..].
  destruct (get_prop (heap σ) item "channel") as [channel | |] eqn:Hchan;
    [| done ..].
  exists [GetChannelByID channel]. unfold external. simpl.
  split; [| split; [| done]].
  - destruct (getChannelByID channel) as [name |]; [| done].
    pose proof (call_indexOf_state f channels name
                  (State (heap σ) (trace σ ++ [GetChannelByID channel])))
      as Hstate.
    by destruct (call_indexOf _ _ _ _) as [[? | ? |] ?]; simpl in *; subst.
  - constructor; [| done]. by exists item, channel.
Qed.

Lemma match_lookups this message :
  lookups message 1 (Rule.match_ this message).
Proof.
  unfold Rule.match_.
  apply (lookups_bind message 0 1); [by apply lookups_silent | intros f].
  apply (lookups_bind message 0 1); [| intros matched].
  { apply lookups_call_as. unfold Rule.reactionMatches.
    apply lookups_silent. intros σ. run. by repeat case_match. }
  destruct matched; [| by apply lookups_silent].
  apply (lookups_bind message 0 1); [by apply lookups_silent | intros g].
  apply lookups_call_as, channelMatches_lookups.
Qed.

Lemma rule_matches_lookups message rule :
  lookups message 1 (Middleware.rule_matches message rule).
Proof.
  unfold Middleware.rule_matches.
  apply (lookups_bind message 0 1); [by apply lookups_silent | intros f].
  destruct f as [[] |]; try by apply lookups_silent.
  apply match_lookups.
Qed.

Lemma find_loop_lookups message array k n :
  lookups message n (find_loop (Middleware.rule_matches message) array k n).
Proof.
  revert k. induction n as [| n IH]; intros k; simpl.
  { by apply lookups_silent. }
  apply (lookups_bind message 0 (S n)); [by apply lookups_silent |].
  intros kValue.
  apply (lookups_bind message 1 n); [apply rule_matches_lookups |].
  intros found. destruct found; [by apply lookups_silent | apply IH].
Qed.

(** The calls of [findMatchingRule]: it leaves the store alone, it calls
    no collaborator but the resolver, each time for the channel of the
    event, and at most once per element of [this.rules]. *)
Theorem findMatchingRule_lookups (this : Middleware.Middleware)
    (message : value) (σ : state) :
  ∃ calls,
    (Middleware.findMatchingRule this message σ).2
      = State (heap σ) (trace σ ++ calls) ∧
    Forall (asks (heap σ) message) calls ∧
    (length calls ≤ length (elements (heap σ) (Middleware.rules this)))%nat.
Proof.
  assert (∃ calls : list call,
            σ = State (heap σ) (trace σ ++ calls) ∧
            Forall (asks (heap σ) message) calls ∧
            (length calls
               ≤ length (elements (heap σ) (Middleware.rules this)))%nat)
    as Hquiet.
  { exists []. rewrite app_nil_r. split; [by destruct σ |].
    split; [done | simpl; lia]. }
  unfold Middleware.findMatchingRule.
  destruct (ToBoolean message); [| done]. run.
  destruct (get_prop (heap σ) message "type") as [type | |]; [| done ..].
  destruct (strict_equals type _); [| done].
  destruct (get_prop (heap σ) message "item") as [item | |]; [| done ..].
  destruct (get_prop (heap σ) item "type") as [item_type | |]; [| done ..].
  destruct (strict_equals item_type _); [| done].
  destruct (get_method (heap σ) (Middleware.rules this) "find")
    as [find | |]; [| done ..].
  unfold call_as. case_decide; [| done].
  unfold array_find, array_length. run.
  apply find_loop_lookups.
Qed.

End Lookups.

(** ** Where [findMatchingRule] stops *)

Section Stops.
Context `{SlackClient}.

(** [find] stops at the first element on which the predicate does not
    return false. *)
Lemma find_loop_decisive (p : value → M bool) array σ0 :
  (∀ x, heap_only (p x)) →
  ∀ pre r post k σ,
    heap σ = heap σ0 →
    drop k (elements (heap σ0) array) = (pre ++ r :: post)%list →
    Forall (λ x, (p x σ0).1 = Normal false) pre →
    (p r σ0).1 ≠ Normal false →
    (find_loop p array k (length (pre ++ r :: post)) σ).1 =
      match (p r σ0).1 with
      | Normal _ => Normal r
      | Throw e => Throw e
      | Unmodelled => Unmodelled
      end.
Proof.
  intros Hp pre r post. induction pre as [| x pre IH];
    intros k σ Hσ Hdrop Hpre Hr.
  - assert (elements (heap σ0) array !! k = Some r) as Hk.
    { rewrite <- (Nat.add_0_r k), <- lookup_drop, Hdrop. done. }
    destruct (Hp r σ) as [_ Hout]. specialize (Hout σ0 (eq_sym Hσ)).
    simpl. unfold array_get. run. rewrite Hσ, Hk. simpl.
    rewrite Hout in Hr |- *.
    destruct (p r σ) as [[[] | e |] σ1]; simpl in *; done.
  - assert (elements (heap σ0) array !! k = Some x) as Hk.
    { rewrite <- (Nat.add_0_r k), <- lookup_drop, Hdrop. done. }
    assert (drop (S k) (elements (heap σ0) array)
            = (pre ++ r :: post)%list) as Hdrop'.
    { replace (S k) with (k + 1)%nat by lia.
      by rewrite <- drop_drop, Hdrop. }
    inversion_clear Hpre as [| ? ? Hx Hpre'].
    destruct (Hp x σ) as [Hheap Hout]. specialize (Hout σ0 (eq_sym Hσ)).
    rewrite <- (IH (S k) (p x σ).2); [| congruence | done ..].
    simpl. unfold array_get. run. rewrite Hσ, Hk. simpl.
    rewrite Hout in Hx.
    by destruct (p x σ) as [[[] | e |] σ1]; simpl in *.
Qed.

Lemma findMatchingRule_run this message σ elems :
  reaction_to_message (heap σ) message →
  rule_list (heap σ) this elems →
  Middleware.findMatchingRule this message σ =
    find_loop (Middleware.rule_matches message) (Middleware.rules this)
      0 (length elems) σ.
Proof.
  intros [Htype (item & Hitem & Hitype)] (l & Hrules & Hl).
  unfold Middleware.findMatchingRule.
  rewrite (reaction_added_truthy _ _ _ Htype). run.
  rewrite Htype. simpl. rewrite Hitem. simpl. rewrite Hitype. simpl.
  rewrite Hrules. simpl. rewrite Hl. simpl.
  change (Array_prototype "find") with (Some Array_find).
  rewrite call_as_same. unfold array_find, array_length. run.
  by rewrite Hl.
Qed.

(** On an event that is a reaction to a message, the answer of
    [findMatchingRule] is decided by the first element of the list on which
    the callback does not return false. *)
Lemma findMatchingRule_decisive this message σ pre x post :
  reaction_to_message (heap σ) message →
  rule_list (heap σ) this (pre ++ x :: post) →
  Forall (λ y, (Middleware.rule_matches message y σ).1 = Normal false) pre →
  (Middleware.rule_matches message x σ).1 ≠ Normal false →
  (Middleware.findMatchingRule this message σ).1 =
    match (Middleware.rule_matches message x σ).1 with
    | Normal _ => Normal x
    | Throw e => Throw e
    | Unmodelled => Unmodelled
    end.
Proof.
  intros Hguard Hlist Hfalse Hx.
  rewrite (findMatchingRule_run _ _ _ _ Hguard Hlist).
  destruct Hlist as (l & Hrules & Hl).
  apply (find_loop_decisive (Middleware.rule_matches message)
           (Middleware.rules this) σ (heap_only_rule_matches message)
           pre x post 0%nat σ eq_refl); [| done | done].
  rewrite Hrules. simpl. by rewrite Hl.
Qed.

(** [findMatchingRule] stops at the first rule that matches: the
    elements of [this.rules] that come after it are not consulted, and may
    be anything, also values on which [match] cannot be called. *)
Theorem findMatchingRule_ignores_rest (this : Middleware.Middleware)
    (message : value) (σ : state) (pre post : list value) (rule : value) :
  reaction_to_message (heap σ) message →
  rule_list (heap σ) this (pre ++ rule :: post) →
  Forall (rule_instance (heap σ)) pre →
  rule_instance (heap σ) rule →
  Forall (λ x, (Rule.match_ x message σ).1 = Normal false) pre →
  (Rule.match_ rule message σ).1 = Normal true →
  (Middleware.findMatchingRule this message σ).1 = Normal rule.
Proof.
  intros Hguard Hlist Hpre Hrule Hfalse Htrue.
  rewrite (findMatchingRule_decisive this message σ pre rule post);
    try done.
  - by rewrite rule_matches_run, Htrue.
  - rewrite Forall_forall in *. intros x Hx.
    rewrite rule_matches_run; auto.
  - by rewrite rule_matches_run, Htrue.
Qed.

(** An exception of the callback ends the search: when the callback
    returns false on the elements before [x] and throws on [x],
    [findMatchingRule] throws that exception, whatever comes after [x]. *)
Theorem findMatchingRule_throws (this : Middleware.Middleware)
    (message : value) (σ : state) (pre post : list value) (x : value)
    (e : exn) :
  reaction_to_message (heap σ) message →
  rule_list (heap σ) this (pre ++ x :: post) →
  Forall (λ x, (Middleware.rule_matches message x σ).1 = Normal false) pre →
  (Middleware.rule_matches message x σ).1 = Throw e →
  (Middleware.findMatchingRule this message σ).1 = Throw e.
Proof.
  intros Hguard Hlist Hfalse Hthrow.
  rewrite (findMatchingRule_decisive this message σ pre x post);
    try done.
  - by rewrite Hthrow.
  - by rewrite Hthrow.
Qed.

(** With the constructor as the chapter first gives it, [this.rules] is
    the array of the configuration itself; its elements are plain objects,
    on which [match] is not a function, and [findMatchingRule] throws a
    [TypeError] on every event that is a reaction to a message. *)
Theorem constructor_plain_rules_throw (config message : value) (σ : state)
    (a l : loc) (specs : list value) (props : gmap string value) :
  get_prop (heap σ) config "rules" = Normal (VRef a) →
  heap σ !!! a = Arr (VRef l :: specs) →
  heap σ !!! l = Obj ObjectPrototype props →
  reaction_to_message (heap σ) message →
  ∃ this,
    Middleware.constructor_plain config σ = (Normal this, σ) ∧
    Middleware.rules this = VRef a ∧
    (Middleware.findMatchingRule this message σ).1 = Throw TypeError.
Proof.
  intros Hrules Ha Hl Hguard.
  destruct (get_prop_normal _ _ _ _ "successReaction" Hrules)
    as [success Hsuccess].
  exists {| Middleware.rules := VRef a;
            Middleware.successReaction := success |}.
  split; [| split; [done |]].
  { unfold Middleware.constructor_plain. run. by rewrite Hrules, Hsuccess. }
  assert ((Middleware.rule_matches message (VRef l) σ).1 = Throw TypeError)
    as Hthrow.
  { unfold Middleware.rule_matches. run. rewrite Hl.
    by destruct (props !! "match"). }
  rewrite (findMatchingRule_decisive _ message σ [] (VRef l) specs);
    try done.
  - by rewrite Hthrow.
  - by exists a.
  - by rewrite Hthrow.
Qed.



End Stops.

(** ** Edges of the constructors *)

Section ConstructorEdges.
Context `{SlackClient}.

(** [new Rule(configRule)] where [configRule] is [undefined], [null], a
    boolean or a number: nothing is enumerated, nothing is thrown, and the
    new rule has no field.  Such a rule matches the events that have no
    [reaction], and only those. *)
Theorem constructor_without_fields (configRule : value) (σ : state) :
  (∀ s, configRule ≠ VStr s) →
  (∀ l, configRule ≠ VRef l) →
  let this := fresh (dom (heap σ)) in
  let σ' := State (<[this:=Obj RulePrototype ∅]> (heap σ)) (trace σ) in
  Rule.constructor configRule σ = (Normal (VRef this), σ') ∧
  ∀ message reaction,
    get_prop (heap σ') message "reaction" = Normal reaction →
    Rule.match_ (VRef this) message σ'
      = (Normal (strict_equals reaction VUndefined), σ').
Proof.
  intros Hstr Href this σ'. split.
  - destruct configRule as [| | b | n | s | l]; try done.
    + by destruct (Hstr s).
    + by destruct (Href l).
  - intros message reaction Hreaction.
    assert (∀ k, get_prop (heap σ') (VRef this) k = Normal VUndefined)
      as Hfield.
    { intros k. simpl. by rewrite lookup_total_insert_eq, lookup_empty. }
    rewrite match_run.
    2: { unfold rule_instance, has_method. simpl.
         by rewrite lookup_total_insert_eq, !lookup_empty. }
    rewrite reactionMatches_run, Hreaction, Hfield.
    destruct (strict_equals reaction VUndefined); [| done].
    unfold Rule.channelMatches, mbind, M_bind.
    by rewrite get_run, Hfield.
Qed.

(** The constructor of [Middleware] on a configuration whose [rules] is
    not an array (the configuration is [undefined] or [null], [rules] is
    missing, or is any other value): it throws a [TypeError], and leaves the
    state as it was. *)
Theorem Middleware_constructor_no_rules (config : value) (σ : state) :
  (∀ l elems,
     get_prop (heap σ) config "rules" = Normal (VRef l) →
     heap σ !!! l ≠ Arr elems) →
  Middleware.constructor config σ = (Throw TypeError, σ).
Proof.
  intros Hrules. unfold Middleware.constructor. run.
  destruct (get_prop (heap σ) config "rules") as [rules | e |] eqn:Hget.
  - destruct rules as [| | b | n | s | l]; try done. simpl.
    destruct (heap σ !!! l) as [p props | elems] eqn:Hl.
    + destruct (props !! "map"); [done |]. by destruct p.
    + by destruct (Hrules l elems).
  - destruct config; by simplify_eq/=.
  - by destruct config.
Qed.

End ConstructorEdges.

(** ** From the configuration to the rule that is found *)

Section Composition.
Context `{SlackClient}.

(** A value that has a string among its properties is in the store, and
    reads the same in every store that extends it. *)
Lemma get_prop_weaken h h' v k s :
  h ⊆ h' → get_prop h v k = Normal (VStr s) →
  ∀ k', get_prop h' v k' = get_prop h v k'.
Proof.
  intros Hsub Hs k'. destruct v as [| | b | n | t | l]; try done.
  simpl in *. destruct (h !! l) as [o |] eqn:Hl.
  - by rewrite !lookup_total_alt, Hl, (lookup_weaken _ _ _ _ Hl Hsub).
  - rewrite lookup_total_alt, Hl in Hs. simpl in Hs.
    by rewrite lookup_empty in Hs.
Qed.

Lemma reaction_to_message_weaken h h' message :
  h ⊆ h' → reaction_to_message h message → reaction_to_message h' message.
Proof.
  intros Hsub [Htype (item & Hitem & Hitype)]. split.
  - by rewrite (get_prop_weaken _ _ _ _ _ Hsub Htype).
  - exists item. split.
    + by rewrite (get_prop_weaken _ _ _ _ _ Hsub Htype).
    + by rewrite (get_prop_weaken _ _ _ _ _ Hsub Hitype).
Qed.

Lemma existsb_indexOf names name :
  negb (array_indexOf names name =? -1) = existsb (strict_equals name) names.
Proof.
  apply Bool.eq_true_iff_eq.
  rewrite array_indexOf_found, existsb_exists, Exists_exists.
  split; intros (e & He & Heq); exists e; split; try done;
    by apply list_elem_of_In.
Qed.

(** On an event that is a reaction to a message, whose channel the resolver
    names, a rule made from a configuration object answers as the
    configuration object selects. *)
Lemma rule_matches_made_from h spec rule message σ' reaction item channel
    name :
  h ⊆ heap σ' →
  made_from h (heap σ') spec rule → rule_config h spec →
  reaction_to_message h message →
  get_prop h message "reaction" = Normal reaction →
  get_prop h message "item" = Normal item →
  get_prop h item "channel" = Normal channel →
  getChannelByID channel = Returned name →
  (Middleware.rule_matches message rule σ').1
    = Normal (selects h spec reaction name).
Proof.
  intros Hsub Hmade Hconfig [Htype (item' & Hitem' & Hitype)]
    Hreaction Hitem Hchan Hname.
  rewrite Hitem in Hitem'. injection Hitem' as <-.
  pose proof (made_from_rule_instance _ _ _ _ Hmade) as Hinst.
  rewrite rule_matches_run by done. rewrite match_run by done.
  rewrite reactionMatches_run.
  rewrite (get_prop_weaken _ _ _ _ _ Hsub Htype), Hreaction.
  rewrite (made_from_get_prop _ _ _ _ "reactionName" Hmade).
  pose proof (made_from_get_prop _ _ _ _ "channelNames" Hmade) as Hch.
  destruct Hconfig as (l & p & props & -> & Hl & _ & Hnames).
  unfold selects. simpl in *. rewrite lookup_total_alt, Hl in Hch |- *.
  simpl in *.
  destruct (strict_equals reaction (default VUndefined _)); [| done].
  simpl.
  destruct (props !! "channelNames") as [[| | b | n | s | a] |] eqn:Hprop;
    try done; simpl in *.
  - unfold Rule.channelMatches, mbind, M_bind. by rewrite get_run, Hch.
  - destruct Hnames as [names Ha].
    pose proof (lookup_weaken _ _ _ _ Ha Hsub) as Ha'.
    rewrite (channelMatches_array rule message σ' a names item channel name);
      try done.
    + simpl. by rewrite existsb_indexOf, lookup_total_alt, Ha.
    + by rewrite lookup_total_alt, Ha'.
    + by rewrite (get_prop_weaken _ _ _ _ _ Hsub Htype).
    + by rewrite (get_prop_weaken _ _ _ _ _ Hsub Hitype).
  - unfold Rule.channelMatches, mbind, M_bind. by rewrite get_run, Hch.
Qed.

(** [find] over rules made from configuration objects: the rule of the
    first configuration object that selects the event. *)
Lemma find_loop_made_from h h' message array reaction item channel name :
  h ⊆ h' →
  reaction_to_message h message →
  get_prop h message "reaction" = Normal reaction →
  get_prop h message "item" = Normal item →
  get_prop h item "channel" = Normal channel →
  getChannelByID channel = Returned name →
  ∀ specs rules,
    Forall2 (made_from h h') specs rules →
    Forall (rule_config h) specs →
    ∀ k σ',
      heap σ' = h' →
      drop k (elements h' array) = rules →
      (find_loop (Middleware.rule_matches message) array k (length rules)
         σ').1 =
        Normal
          match list_find (λ spec, Is_true (selects h spec reaction name))
                  specs with
          | Some (i, _) => default VUndefined (rules !! i)
          | None => VUndefined
          end.
Proof.
  intros Hsub Hguard Hreaction Hitem Hchan Hname specs rules Hmade.
  induction Hmade as [| spec rule specs rules Hrule Hrules IH];
    intros Hconfig k σ' Hσ' Hdrop; [done |].
  inversion_clear Hconfig as [| ? ? Hspec Hspecs].
  assert (elements h' array !! k = Some rule) as Hk.
  { rewrite <- (Nat.add_0_r k), <- lookup_drop, Hdrop. done. }
  assert (drop (S k) (elements h' array) = rules) as Hdrop'.
  { replace (S k) with (k + 1)%nat by lia. by rewrite <- drop_drop, Hdrop. }
  subst h'.
  pose proof (rule_matches_made_from h spec rule message σ' reaction item
                channel name Hsub Hrule Hspec Hguard Hreaction Hitem Hchan
                Hname) as Hanswer.
  destruct (heap_only_rule_matches message rule σ') as [Hheap _].
  simpl. unfold array_get, mbind, M_bind, reading. simpl. rewrite Hk. simpl.
  destruct (Middleware.rule_matches message rule σ') as [o σ1].
  simpl in Hanswer, Hheap. subst o.
  destruct (selects h spec reaction name) eqn:Hselects.
  - reflexivity.
  - rewrite (IH Hspecs (S k) σ1 Hheap Hdrop'). simpl.
    by destruct (list_find _ specs) as [[i x] |].
Qed.

(** From the configuration to the rule that is found.  The configuration
    holds an array of configuration objects of rules; the event is a
    reaction to a message, whose channel the resolver names.  Then the
    constructor of [Middleware] returns a middleware on which
    [findMatchingRule] returns the rule made from the first configuration
    object, in the configured order, whose [reactionName] is the reaction of
    the event and whose [channelNames], if it has one, holds the name of the
    channel; it returns [undefined] when there is no such configuration
    object. *)
Theorem constructed_rules_select (config message : value) (σ : state)
    (a : loc) (specs : list value) (reaction item channel name : value) :
  get_prop (heap σ) config "rules" = Normal (VRef a) →
  heap σ !! a = Some (Arr specs) →
  Forall (rule_config (heap σ)) specs →
  reaction_to_message (heap σ) message →
  get_prop (heap σ) message "reaction" = Normal reaction →
  get_prop (heap σ) message "item" = Normal item →
  get_prop (heap σ) item "channel" = Normal channel →
  getChannelByID channel = Returned name →
  ∃ this σ' rules,
    Middleware.constructor config σ = (Normal this, σ') ∧
    Forall2 (made_from (heap σ) (heap σ')) specs rules ∧
    (Middleware.findMatchingRule this message σ').1 =
      Normal
        match list_find
                (λ spec, Is_true (selects (heap σ) spec reaction name))
                specs with
        | Some (i, _) => default VUndefined (rules !! i)
        | None => VUndefined
        end.
Proof.
  intros Hrules Ha Hspecs Hguard Hreaction Hitem Hchan Hname.
  destruct (get_prop_normal _ _ _ _ "successReaction" Hrules)
    as [success Hsuccess].
  assert (elements (heap σ) (VRef a) = specs) as Helems.
  { simpl. by rewrite lookup_total_alt, Ha. }
  destruct (map_loop_constructor σ (VRef a) specs Helems) with
    (rest := specs) (k := 0%nat) (σ1 := σ)
    as (rules & σ2 & Hloop & Hsub & Htrace & Hmade);
    [by eauto | | done | done |].
  { eapply Forall_impl; [done |].
    intros spec (l & p & props & ? & ? & ? & _). by exists l, p, props. }
  set (l := fresh (dom (heap σ2))).
  set (h' := <[l:=Arr rules]> (heap σ2)).
  assert (heap σ2 ⊆ h') as Hsub'.
  { apply insert_subseteq, not_elem_of_dom, is_fresh. }
  assert (heap σ ⊆ h') as Hsub'' by by etrans.
  assert (Forall2 (made_from (heap σ) h') specs rules) as Hmade'.
  { eapply Forall2_impl; [done |]. intros spec rule.
    by apply made_from_weaken. }
  exists {| Middleware.rules := VRef l;
            Middleware.successReaction := success |},
    (State h' (trace σ2)), rules.
  split; [| split; [done |]].
  { by apply (Middleware_constructor_run config σ a specs). }
  assert (h' !!! l = Arr rules) as Hl.
  { apply lookup_total_insert_eq. }
  rewrite (findMatchingRule_run _ message _ rules).
  - apply (find_loop_made_from (heap σ) h' message (VRef l) reaction item
             channel name); try done.
    simpl. by rewrite Hl.
  - by apply (reaction_to_message_weaken (heap σ)).
  - by exists l.
Qed.

End Composition.

(** * The specification's scenarios *)

(** ** Scenarios of [Rule.match] *)

(** Scenario for C2: the rule restricted to [general], the event of the
    end-to-end scenarios, the channel of the event resolved to [general]. *)
Lemma match_iff_scenario :
  ((@Rule.match_ (Example.slack (VStr "general")) (VRef 3) (VRef 1)
      Example.start).1 = Normal true ↔
   @Spec.rule_matches (Example.slack (VStr "general"))
     Example.store (VRef 3) (VRef 1)) ∧
  (@Spec.well_typed (Example.slack (VStr "general"))
     Example.store (VRef 3) (VRef 1) →
   ∃ b, (@Rule.match_ (Example.slack (VStr "general")) (VRef 3) (VRef 1)
           Example.start).1 = Normal b).
Proof.
  apply (@match_iff (Example.slack (VStr "general")) (VRef 3) (VRef 1)
           Example.start).
  - repeat split; vm_compute; reflexivity.
  - intros s. vm_compute. discriminate.
Defined.

(** Scenario 4 of the specification, for C6 as amended: the rule has
    [channelNames: ["general"]], and the resolver does not know the channel
    of the event. *)
Lemma match_not_found_scenario :
  (@Rule.match_ (Example.slack VUndefined) (VRef 3) (VRef 1)
     Example.start).1 = Normal false.
Proof.
  apply (@match_not_found (Example.slack VUndefined) (VRef 3) (VRef 1)
           Example.start 4%positive [VStr "general"] (VRef 2) (VStr "C1")
           VUndefined).
  - repeat split; vm_compute; reflexivity.
  - vm_compute; reflexivity.
  - vm_compute; reflexivity.
  - repeat constructor. by exists "general".
  - vm_compute; reflexivity.
  - vm_compute; reflexivity.
  - vm_compute; reflexivity.
  - by left.
Defined.

(** C6 as stated fails on the unrestricted rule: the resolver's lookup of
    the channel of the event yields not-found, and [Rule.match] returns
    true. *)
Lemma match_not_found_unrestricted :
  @getChannelByID (Example.slack VUndefined) (VStr "C1")
    = Returned VUndefined ∧
  get_prop Example.store (VRef 2) "channel" = Normal (VStr "C1") ∧
  (@Rule.match_ (Example.slack VUndefined) (VRef 5) (VRef 1)
     Example.start).1 = Normal true.
Proof. repeat split; vm_compute; reflexivity. Qed.

(** Scenario for C10: the unrestricted rule, an event that has no [item],
    and a resolver that fails. *)
Lemma channelMatches_unset_scenario :
  @Rule.channelMatches Example.broken_slack (VRef 5) (VRef 8) Example.start
    = (Normal true, Example.start) ∧
  @Rule.match_ Example.broken_slack (VRef 5) (VRef 8) Example.start
    = (Normal true, Example.start).
Proof.
  destruct (@channelMatches_unset Example.broken_slack (VRef 5) (VRef 8)
              Example.start) as [Hchannel Hmatch].
  { vm_compute; reflexivity. }
  split; [exact Hchannel |].
  destruct Hmatch as [_ Hmatch].
  { repeat split; vm_compute; reflexivity. }
  apply (Hmatch (VStr "thumbsup") (VStr "thumbsup"));
    vm_compute; reflexivity.
Defined.

(** ** Scenarios of [findMatchingRule] *)

(** Scenario for C1 as amended: the event of the end-to-end scenarios in
    the channel [random]; the rule restricted to [general] comes first and
    does not match, the unrestricted rule comes second and is returned. *)
Lemma findMatchingRule_first_match_scenario :
  (@Middleware.findMatchingRule (Example.slack (VStr "random"))
     (Example.middleware 6) (VRef 1) Example.start).1 = Normal (VRef 5).
Proof.
  destruct (@findMatchingRule_first_match (Example.slack (VStr "random"))
              (Example.middleware 6) (VRef 1) Example.start
              [VRef 3; VRef 5]) as [Hfirst _].
  - split; [vm_compute; reflexivity |].
    exists (VRef 2). split; vm_compute; reflexivity.
  - exists 6%positive. split; vm_compute; reflexivity.
  - repeat constructor; vm_compute; reflexivity.
  - apply (Hfirst [VRef 3] (VRef 5) []).
    + reflexivity.
    + constructor; [vm_compute; reflexivity | constructor].
    + vm_compute; reflexivity.
Defined.

(** C1 as stated fails on scenario 3 of the specification, an event whose
    [item.type] is ["file"]: the one rule of the list matches the event,
    and [findMatchingRule] returns none. *)
Lemma findMatchingRule_file_event :
  (@Rule.match_ (Example.slack (VStr "general")) (VRef 5) (VRef 9)
     Example.start).1 = Normal true ∧
  (@Middleware.findMatchingRule (Example.slack (VStr "general"))
     (Example.middleware 11) (VRef 9) Example.start).1 = Normal VUndefined.
Proof. split; vm_compute; reflexivity. Qed.

(** Scenario 3 of the specification, for C3: an event whose [item.type] is
    ["file"]. *)
Lemma findMatchingRule_other_event_scenario :
  @Middleware.findMatchingRule (Example.slack (VStr "general"))
    (Example.middleware 6) (VRef 9) Example.start
  = (Normal VUndefined, Example.start).
Proof.
  apply (@findMatchingRule_other_event (Example.slack (VStr "general"))).
  right. exists (VRef 10), (VStr "file").
  split; [vm_compute; reflexivity |].
  split; [vm_compute; reflexivity | discriminate].
Defined.

(** The failing input of C5: an event of type ["reaction_added"] that has
    no [item]. *)
Lemma findMatchingRule_missing_item_scenario :
  @Middleware.findMatchingRule (Example.slack (VStr "general"))
    (Example.middleware 6) (VRef 8) Example.start
  = (Throw TypeError, Example.start).
Proof.
  apply (proj2 (@findMatchingRule_missing_item
                  (Example.slack (VStr "general")) (Example.middleware 6)
                  (VRef 8) Example.start)) with (item := VUndefined).
  - vm_compute; reflexivity.
  - vm_compute; reflexivity.
  - by left.
Defined.

(** ** Scenarios of the constructor *)

(** The failing input of C8: the configuration
    [{reactionName: "thumbsup", hasOwnProperty: "yes"}]. *)
Lemma constructor_hidden_hasOwnProperty_scenario :
  (Rule.constructor (VRef 7) Example.start).1 = Throw TypeError.
Proof.
  eapply (constructor_hidden_hasOwnProperty 7%positive Example.start).
  - vm_compute; reflexivity.
  - vm_compute; reflexivity.
Defined.

(** The configuration [{reactionName: "thumbsup"}] of scenario 1 is copied
    as it is. *)
Lemma constructor_copies_scenario :
  Rule.constructor (VRef 15) Example.start
  = (Normal (VRef 16),
     State (<[16%positive:=Example.rule_of
                             [("reactionName", VStr "thumbsup")]]>
              Example.store) []).
Proof.
  apply (constructor_copies 15%positive Example.start ObjectPrototype
           (list_to_map [("reactionName", VStr "thumbsup")])).
  - vm_compute; reflexivity.
  - vm_compute; reflexivity.
  - vm_compute; reflexivity.
Defined.

(** The configuration of the example store, with its two rules. *)
Lemma Middleware_constructor_rules_scenario :
  ∃ this σ' rules,
    Middleware.constructor (VRef 12) Example.start = (Normal this, σ') ∧
    Middleware.successReaction this = VStr "white_check_mark" ∧
    rule_list (heap σ') this rules ∧
    Forall2 (made_from Example.store (heap σ')) [VRef 14; VRef 15] rules ∧
    Example.store ⊆ heap σ' ∧ trace σ' = [].
Proof.
  apply (Middleware_constructor_rules (VRef 12) Example.start 13%positive).
  - vm_compute; reflexivity.
  - vm_compute; reflexivity.
  - constructor; [| constructor; [| constructor]].
    + exists 14%positive, ObjectPrototype,
        (list_to_map [("reactionName", VStr "thumbsup");
                      ("channelNames", VRef 4)]).
      split; [reflexivity |]. split; [vm_compute; reflexivity |].
      repeat constructor.
    + exists 15%positive, ObjectPrototype,
        (list_to_map [("reactionName", VStr "thumbsup")]).
      split; [reflexivity |]. split; [vm_compute; reflexivity |].
      repeat constructor.
  - vm_compute; reflexivity.
Defined.

(** ** Scenarios of [execute] *)

(** Scenario 2 of the specification, for C4 as amended: the event matches
    the unrestricted rule and the message already carries the success
    reaction. *)
Lemma execute_already_processed_scenario :
  ∃ calls,
    @Middleware.execute (Example.slack (VStr "random"))
      (Example.services [VStr "white_check_mark"])
      (Example.middleware 6) (VRef 1) Example.start
    = (Normal Middleware.Handled, State Example.store ([] ++ calls)) ∧
    Forall lookup_call calls.
Proof.
  apply (@execute_already_processed
           (Example.slack (VStr "random"))
           (Example.services [VStr "white_check_mark"])
           (Example.middleware 6) (VRef 1) Example.start
           (State Example.store [GetChannelByID (VStr "C1")])
           (VRef 5) (VRef 2) (VStr "C1") (VStr "100")
           [VStr "white_check_mark"]).
  - vm_compute; reflexivity.
  - discriminate.
  - vm_compute; reflexivity.
  - vm_compute; reflexivity.
  - vm_compute; reflexivity.
  - vm_compute; reflexivity.
  - constructor. vm_compute; reflexivity.
Defined.

(** C4 as stated fails on scenario 3 of the specification: the message
    already carries the success reaction, the event, whose [item.type] is
    ["file"], matches no rule, and [execute] signals not handled. *)
Lemma execute_unmatched_event :
  @getReactions (Example.services [VStr "white_check_mark"])
    [] (VStr "C1") (VStr "100") = Returned [VStr "white_check_mark"] ∧
  @Middleware.execute (Example.slack (VStr "random"))
    (Example.services [VStr "white_check_mark"])
    (Example.middleware 6) (VRef 9) Example.start
  = (Normal Middleware.NotHandled, Example.start).
Proof. split; vm_compute; reflexivity. Qed.

(** ** Scenarios of the edges *)

(** The unrestricted rule for [thumbsup] and an event that carries
    [smile]. *)
Lemma match_reaction_differs_scenario :
  @Rule.match_ Example.broken_slack (VRef 5) (VRef 20) Example.edge_start
  = (Normal false, Example.edge_start).
Proof.
  apply (@match_reaction_differs Example.broken_slack (VRef 5) (VRef 20)
           Example.edge_start (VStr "smile") (VStr "thumbsup")).
  - repeat split; vm_compute; reflexivity.
  - vm_compute; reflexivity.
  - vm_compute; reflexivity.
  - vm_compute; reflexivity.
Defined.

(** The rule whose [channelNames] is [null]. *)
Lemma channelMatches_not_array_scenario :
  @Rule.channelMatches (Example.slack (VStr "general")) (VRef 21) (VRef 1)
    Example.edge_start
  = (Throw TypeError, Example.edge_start).
Proof.
  apply (@channelMatches_not_array (Example.slack (VStr "general"))
           (VRef 21) (VRef 1) Example.edge_start VNull).
  - vm_compute; reflexivity.
  - discriminate.
  - discriminate.
  - discriminate.
  - reflexivity.
Defined.

(** The rule whose [channelNames] is the empty array, on the event of the
    end-to-end scenarios. *)
Lemma match_empty_channelNames_scenario :
  (@Rule.match_ (Example.slack (VStr "general")) (VRef 22) (VRef 1)
     Example.edge_start).1 ≠ Normal true.
Proof.
  apply (@match_empty_channelNames (Example.slack (VStr "general"))
           (VRef 22) (VRef 1) Example.edge_start 23%positive).
  - repeat split; vm_compute; reflexivity.
  - vm_compute; reflexivity.
  - vm_compute; reflexivity.
Defined.

(** The rule restricted to [general], with a resolver that fails. *)
Lemma match_resolver_fails_scenario :
  @Rule.match_ Example.broken_slack (VRef 3) (VRef 1) Example.start
  = (Throw (Thrown (VStr "channel_not_found")),
     State Example.store ([] ++ [GetChannelByID (VStr "C1")])).
Proof.
  apply (@match_resolver_fails Example.broken_slack (VRef 3) (VRef 1)
           Example.start (VRef 4) (VStr "thumbsup") (VStr "thumbsup")
           (VRef 2) (VStr "C1") (VStr "channel_not_found")).
  - repeat split; vm_compute; reflexivity.
  - vm_compute; reflexivity.
  - discriminate.
  - discriminate.
  - vm_compute; reflexivity.
  - vm_compute; reflexivity.
  - vm_compute; reflexivity.
  - vm_compute; reflexivity.
  - vm_compute; reflexivity.
  - reflexivity.
Defined.

(** The rule whose [channelNames] is the string ["general-dev"], and an
    event in the channel [general]. *)
Lemma channelMatches_string_scenario :
  ∃ b,
    @Rule.channelMatches (Example.slack (VStr "general")) (VRef 26) (VRef 1)
      Example.edge_start
    = (Normal b, State Example.edges ([] ++ [GetChannelByID (VStr "C1")])) ∧
    (b = true ↔
     ∃ i, String.substring i (String.length "general") "general-dev"
          = "general").
Proof.
  apply (@channelMatches_string (Example.slack (VStr "general")) (VRef 26)
           (VRef 1) Example.edge_start "general-dev" "general" (VRef 2)
           (VStr "C1")).
  - vm_compute; reflexivity.
  - vm_compute; reflexivity.
  - vm_compute; reflexivity.
  - vm_compute; reflexivity.
Defined.

(** The list [[3; 5; null]]: the unrestricted rule is found, and [null] is
    not reached. *)
Lemma findMatchingRule_ignores_rest_scenario :
  (@Middleware.findMatchingRule (Example.slack (VStr "random"))
     (Example.middleware 24) (VRef 1) Example.edge_start).1
  = Normal (VRef 5).
Proof.
  apply (@findMatchingRule_ignores_rest (Example.slack (VStr "random"))
           (Example.middleware 24) (VRef 1) Example.edge_start
           [VRef 3] [VNull] (VRef 5)).
  - split; [vm_compute; reflexivity |].
    exists (VRef 2). split; vm_compute; reflexivity.
  - exists 24%positive. split; vm_compute; reflexivity.
  - constructor; [| constructor].
    repeat split; vm_compute; reflexivity.
  - repeat split; vm_compute; reflexivity.
  - constructor; [vm_compute; reflexivity | constructor].
  - vm_compute; reflexivity.
Defined.

(** The list [[3; 21; 5]]: the rule whose [channelNames] is [null] throws,
    and the unrestricted rule after it is not reached. *)
Lemma findMatchingRule_throws_scenario :
  (@Middleware.findMatchingRule (Example.slack (VStr "random"))
     (Example.middleware 25) (VRef 1) Example.edge_start).1
  = Throw TypeError.
Proof.
  apply (@findMatchingRule_throws (Example.slack (VStr "random"))
           (Example.middleware 25) (VRef 1) Example.edge_start
           [VRef 3] [VRef 5] (VRef 21) TypeError).
  - split; [vm_compute; reflexivity |].
    exists (VRef 2). split; vm_compute; reflexivity.
  - exists 25%positive. split; vm_compute; reflexivity.
  - constructor; [vm_compute; reflexivity | constructor].
  - vm_compute; reflexivity.
Defined.

(** The configuration of the example store, with its rules left as the
    configuration objects. *)
Lemma constructor_plain_rules_throw_scenario :
  ∃ this,
    Middleware.constructor_plain (VRef 12) Example.start
      = (Normal this, Example.start) ∧
    Middleware.rules this = VRef 13 ∧
    (@Middleware.findMatchingRule (Example.slack (VStr "general")) this
       (VRef 1) Example.start).1 = Throw TypeError.
Proof.
  apply (@constructor_plain_rules_throw (Example.slack (VStr "general"))
           (VRef 12) (VRef 1) Example.start 13%positive 14%positive
           [VRef 15]
           (list_to_map [("reactionName", VStr "thumbsup");
                         ("channelNames", VRef 4)])).
  - vm_compute; reflexivity.
  - vm_compute; reflexivity.
  - vm_compute; reflexivity.
  - split; [vm_compute; reflexivity |].
    exists (VRef 2). split; vm_compute; reflexivity.
Defined.


(** [new Rule()], and the event of the end-to-end scenarios, which has a
    reaction. *)
Lemma constructor_without_fields_scenario :
  Rule.constructor VUndefined Example.start
    = (Normal (VRef 16),
       State (<[16%positive:=Obj RulePrototype ∅]> Example.store) []) ∧
  @Rule.match_ (Example.slack (VStr "general")) (VRef 16) (VRef 1)
    (State (<[16%positive:=Obj RulePrototype ∅]> Example.store) [])
  = (Normal false,
     State (<[16%positive:=Obj RulePrototype ∅]> Example.store) []).
Proof.
  destruct (@constructor_without_fields (Example.slack (VStr "general"))
              VUndefined Example.start) as [Hnew Hmatch].
  - discriminate.
  - discriminate.
  - split; [exact Hnew |].
    apply (Hmatch (VRef 1) (VStr "thumbsup")). vm_compute; reflexivity.
Defined.

(** A configuration that has no [rules]: the event of the end-to-end
    scenarios in the place of the configuration. *)
Lemma Middleware_constructor_no_rules_scenario :
  Middleware.constructor (VRef 1) Example.start
  = (Throw TypeError, Example.start).
Proof.
  apply (Middleware_constructor_no_rules (VRef 1) Example.start).
  intros l elems Hrules. vm_compute in Hrules. discriminate.
Defined.

(** The configuration of the example store and an event in the channel
    [random]: the first configuration object is restricted to [general],
    the second selects the event. *)
Lemma constructed_rules_select_scenario :
  ∃ this σ' rules,
    Middleware.constructor (VRef 12) Example.start = (Normal this, σ') ∧
    Forall2 (made_from Example.store (heap σ')) [VRef 14; VRef 15] rules ∧
    (@Middleware.findMatchingRule (Example.slack (VStr "random")) this
       (VRef 1) σ').1 = Normal (default VUndefined (rules !! 1%nat)).
Proof.
  apply (@constructed_rules_select (Example.slack (VStr "random"))
           (VRef 12) (VRef 1) Example.start 13%positive
           [VRef 14; VRef 15] (VStr "thumbsup") (VRef 2) (VStr "C1")
           (VStr "random")).
  - vm_compute; reflexivity.
  - vm_compute; reflexivity.
  - constructor; [| constructor; [| constructor]].
    + exists 14%positive, ObjectPrototype,
        (list_to_map [("reactionName", VStr "thumbsup");
                      ("channelNames", VRef 4)]).
      split; [reflexivity |]. split; [vm_compute; reflexivity |].
      split; [repeat constructor |].
      vm_compute. by eexists.
    + exists 15%positive, ObjectPrototype,
        (list_to_map [("reactionName", VStr "thumbsup")]).
      split; [reflexivity |]. split; [vm_compute; reflexivity |].
      split; [repeat constructor |].
      vm_compute. exact I.
  - split; [vm_compute; reflexivity |].
    exists (VRef 2). split; vm_compute; reflexivity.
  - vm_compute; reflexivity.
  - vm_compute; reflexivity.
  - vm_compute; reflexivity.
  - vm_compute; reflexivity.
Defined.
